(** * Verification of invoice_parser.py (cn-invoice-parser)

    Shallow embedding of the field extraction, items-section extraction,
    base-URL normalisation, summary clean-up and filename building of
    [src/invoice_parser.py], with a small backtracking matcher standing for
    Python's [re] on the patterns the script uses. *)

From Stdlib Require Import String Ascii List ZArith Lia Bool.
Import ListNotations.

Open Scope Z_scope.

(** ** Text *)

(** Python [str] values are sequences of code points; Rocq string literals in
    this file are UTF-8 byte strings, decoded into code points by [u]. *)
Fixpoint utf8 (l : list ascii) : list Z :=
  match l with
  | [] => []
  | a :: r =>
    let b := Z.of_nat (nat_of_ascii a) in
    if b <? 128 then b :: utf8 r
    else if b <? 224 then
      match r with
      | c :: r' => ((b - 192) * 64 + (Z.of_nat (nat_of_ascii c) - 128)) :: utf8 r'
      | [] => []
      end
    else if b <? 240 then
      match r with
      | c :: d :: r' =>
          ((b - 224) * 4096 + (Z.of_nat (nat_of_ascii c) - 128) * 64
           + (Z.of_nat (nat_of_ascii d) - 128)) :: utf8 r'
      | _ => []
      end
    else
      match r with
      | c :: d :: e :: r' =>
          ((b - 240) * 262144 + (Z.of_nat (nat_of_ascii c) - 128) * 4096
           + (Z.of_nat (nat_of_ascii d) - 128) * 64
           + (Z.of_nat (nat_of_ascii e) - 128)) :: utf8 r'
      | _ => []
      end
  end.

Definition text := list Z.

Definition u (s : string) : text := utf8 (list_ascii_of_string s).

(** The code point of a one-character literal. *)
Definition ch (s : string) : Z := hd 0 (u s).

(** [\s] on a [str] pattern: [Py_UNICODE_ISSPACE], the same test as
    [str.isspace] used by [str.strip()]. *)
Definition space_chars : list Z :=
  [9; 10; 11; 12; 13; 28; 29; 30; 31; 32; 133; 160; 5760;
   8192; 8193; 8194; 8195; 8196; 8197; 8198; 8199; 8200; 8201; 8202;
   8232; 8233; 8239; 8287; 12288].

Definition is_space (c : Z) : bool := existsb (Z.eqb c) space_chars.

(** [\d] on a [str] pattern: Unicode category Nd, given by the first code
    point of each run of ten decimal digits. *)
Definition digit_zeros : list Z :=
  [48; 1632; 1776; 1984; 2406; 2534; 2662; 2790; 2918; 3046; 3174; 3302;
   3430; 3558; 3664; 3792; 3872; 4160; 4240; 6112; 6160; 6470; 6608; 6784;
   6800; 6992; 7088; 7232; 7248; 42528; 43216; 43264; 43472; 43504; 43600;
   44016; 65296; 66720; 68912; 69734; 69872; 69942; 70096; 70384; 70736;
   70864; 71248; 71360; 71472; 71904; 72016; 72784; 73040; 73120; 92768;
   92864; 93008; 120782; 120792; 120802; 120812; 120822; 123200; 123632;
   125264; 130032].

Definition is_digit (c : Z) : bool :=
  existsb (fun z => (z <=? c) && (c <=? z + 9)) digit_zeros.

Definition is_char (s : string) (c : Z) : bool := Z.eqb c (ch s).

(** [.] without [re.DOTALL]: anything but a newline. *)
Definition not_newline (c : Z) : bool := negb (Z.eqb c 10).

Definition any_char (_ : Z) : bool := true.

(** ** A backtracking matcher for the script's patterns

    Every pattern of the script is a sequence of single-character classes,
    each with a quantifier, and of capturing-group parentheses.  An [Atom]
    is a class with its repetition bounds and greediness; [Open n] and
    [Close n] are the parentheses of group [n]. *)
Inductive item :=
| Atom (cls : Z -> bool) (lo : nat) (hi : option nat) (greedy : bool)
| Open (g : nat)
| Close (g : nat).

(** [c+], [c*], [c*?], [c?], [c{n}] and a literal character [c]. *)
Definition plus (cls : Z -> bool) : item := Atom cls 1 None true.
Definition star (cls : Z -> bool) : item := Atom cls 0 None true.
Definition lazy_star (cls : Z -> bool) : item := Atom cls 0 None false.
Definition opt (cls : Z -> bool) : item := Atom cls 0 (Some 1%nat) true.
Definition rep (cls : Z -> bool) (n : nat) : item := Atom cls n (Some n) true.
Definition lit (s : string) : item := rep (is_char s) 1.

Record mstate := MState {
  pos : nat;                          (* current index in the subject *)
  opens : list (nat * nat);           (* group -> index of its '(' *)
  caps : list (nat * (nat * nat))     (* closed groups, last closed first *)
}.

Definition init (i : nat) : mstate := MState i [] [].

Definition advance (st : mstate) (k : nat) : mstate :=
  MState (pos st + k) (opens st) (caps st).

(** The length of the run of [cls] characters at the head of [s], scanned
    no further than the quantifier's upper bound. *)
Fixpoint run_len (cls : Z -> bool) (bound : option nat) (s : text) : nat :=
  match s, bound with
  | _, Some O => O
  | c :: s', Some (S b) => if cls c then S (run_len cls (Some b) s') else O
  | c :: s', None => if cls c then S (run_len cls None s') else O
  | [], _ => O
  end.

(** The repetition counts tried, in backtracking order: a greedy quantifier
    tries the longest run first, a lazy one the shortest. *)
Definition counts (lo : nat) (hi : option nat) (n : nat) (greedy : bool) : list nat :=
  let mx := match hi with Some h => Nat.min h n | None => n end in
  let l := seq lo (S mx - lo) in
  if greedy then rev l else l.

Fixpoint first_some {A B : Type} (f : A -> option B) (l : list A) : option B :=
  match l with
  | [] => None
  | x :: l' => match f x with Some b => Some b | None => first_some f l' end
  end.

Fixpoint lookup_nat {A : Type} (n : nat) (l : list (nat * A)) : option A :=
  match l with
  | [] => None
  | (m, a) :: l' => if Nat.eqb m n then Some a else lookup_nat n l'
  end.

(** [mtch p s st]: match pattern [p] against the subject suffix [s], which
    starts at index [pos st]; the first success in backtracking order. *)
Fixpoint mtch (p : list item) (s : text) (st : mstate) : option mstate :=
  match p with
  | [] => Some st
  | Atom cls lo hi g :: p' =>
      first_some (fun k => mtch p' (skipn k s) (advance st k))
                 (counts lo hi (run_len cls hi s) g)
  | Open n :: p' => mtch p' s (MState (pos st) ((n, pos st) :: opens st) (caps st))
  | Close n :: p' =>
      match lookup_nat n (opens st) with
      | Some b => mtch p' s (MState (pos st) (opens st) ((n, (b, pos st)) :: caps st))
      | None => None
      end
  end.

(** [re.search]: the leftmost start index at which the pattern matches. *)
Fixpoint search_at (p : list item) (s : text) (i : nat) : option (nat * mstate) :=
  match mtch p s (init i) with
  | Some st => Some (i, st)
  | None => match s with [] => None | _ :: s' => search_at p s' (S i) end
  end.

Definition search (p : list item) (t : text) : option (nat * mstate) := search_at p t 0.

(** [re.match]: anchored at index 0. *)
Definition rmatch (p : list item) (t : text) : option mstate := mtch p t (init 0).

Definition substr (t : text) (b e : nat) : text := firstn (e - b) (skipn b t).

(** [m.group(n)] *)
Definition group (t : text) (st : mstate) (n : nat) : option text :=
  match lookup_nat n (caps st) with
  | Some (b, e) => Some (substr t b e)
  | None => None
  end.

(** [m.group(m.lastindex)]: the group closed last. *)
Definition group_last (t : text) (st : mstate) : option text :=
  match caps st with
  | (_, (b, e)) :: _ => Some (substr t b e)
  | [] => None
  end.

(** [re.findall] with one group: the non-overlapping matches from left to
    right; after an empty match the scan moves one index on.  [fuel] bounds
    the number of matches. *)
Fixpoint findall_from (fuel : nat) (p : list item) (t : text) (i : nat) : list text :=
  match fuel with
  | O => []
  | S f =>
      match search_at p (skipn i t) i with
      | None => []
      | Some (j, st) =>
          match group t st 1 with
          | Some g => g
          | None => []
          end :: findall_from f p t (if Nat.eqb (pos st) j then S (pos st) else pos st)
      end
  end.

Definition findall (p : list item) (t : text) : list text :=
  findall_from (S (length t)) p t 0.

(** ** String operations of the script *)

Fixpoint list_eqb (a b : text) : bool :=
  match a, b with
  | [], [] => true
  | x :: a', y :: b' => Z.eqb x y && list_eqb a' b'
  | _, _ => false
  end.

Fixpoint prefixb (p s : text) : bool :=
  match p, s with
  | [], _ => true
  | x :: p', y :: s' => Z.eqb x y && prefixb p' s'
  | _ :: _, [] => false
  end.

(** [needle in hay] *)
Fixpoint contains (needle hay : text) : bool :=
  prefixb needle hay || match hay with [] => false | _ :: h' => contains needle h' end.

Definition has (s : string) (hay : text) : bool := contains (u s) hay.

(** [s.endswith(x)] *)
Definition endswith (s x : text) : bool := prefixb (rev x) (rev s).

(** [s.count(c)] for a one-character [c] *)
Definition count_char (c : Z) (s : text) : nat := length (filter (Z.eqb c) s).

Fixpoint drop_while (f : Z -> bool) (l : text) : text :=
  match l with
  | c :: l' => if f c then drop_while f l' else l
  | [] => []
  end.

(** [s.lstrip(chars)], [s.rstrip(chars)], [s.strip(chars)] for a set of
    characters given as a test. *)
Definition lstrip_by (f : Z -> bool) (s : text) : text := drop_while f s.
Definition rstrip_by (f : Z -> bool) (s : text) : text := rev (drop_while f (rev s)).
Definition strip_by (f : Z -> bool) (s : text) : text := rstrip_by f (lstrip_by f s).

(** [s.split(sep)] for a one-character separator. *)
Fixpoint split_char (c : Z) (s : text) : list text :=
  match s with
  | [] => [[]]
  | x :: s' =>
      if Z.eqb x c then [] :: split_char c s'
      else match split_char c s' with
           | l :: ls => (x :: l) :: ls
           | [] => [[x]]
           end
  end.

(** [sep.join(ls)] *)
Fixpoint join (sep : text) (ls : list text) : text :=
  match ls with
  | [] => []
  | [l] => l
  | l :: ls' => l ++ sep ++ join sep ls'
  end.

(** [s.split(sep)] for a non-empty separator, scanning from the left;
    [fuel] bounds the number of characters scanned. *)
Fixpoint split_on_fuel (fuel : nat) (sep s : text) : list text :=
  match fuel with
  | O => [s]
  | S f =>
      match s with
      | [] => [[]]
      | x :: s' =>
          if prefixb sep s then [] :: split_on_fuel f sep (skipn (length sep) s)
          else match split_on_fuel f sep s' with
               | l :: ls => (x :: l) :: ls
               | [] => [[x]]
               end
      end
  end.

Definition split_on (sep s : text) : list text := split_on_fuel (S (length s)) sep s.

(** [re.sub(r'[...]', '', s)] with a character class: drop every character
    of the class. *)
Definition remove_chars (cls : Z -> bool) (s : text) : text :=
  filter (fun c => negb (cls c)) s.

(** Python truthiness of an optional string: [None] and the empty string are false. *)
Definition truthy (o : option text) : bool :=
  match o with Some (_ :: _) => true | _ => false end.

(** ** The patterns of [extract_invoice_data] *)

(** [[X\s]]: a label character or white space. *)
Definition lbl (s : string) (c : Z) : bool := is_char s c || is_space c.

(** [[:：]] *)
Definition colon (c : Z) : bool := is_char ":" c || is_char "：" c.

(** [[¥￥]] *)
Definition yen (c : Z) : bool := is_char "¥" c || is_char "￥" c.

(** [[\d\.]] *)
Definition digit_or_dot (c : Z) : bool := is_digit c || is_char "." c.

(** [[一-龥A-Za-z0-9\(\)（）]] *)
Definition name_cls (c : Z) : bool :=
  ((19968 <=? c) && (c <=? 40869)) || ((65 <=? c) && (c <=? 90))
  || ((97 <=? c) && (c <=? 122)) || ((48 <=? c) && (c <=? 57))
  || is_char "(" c || is_char ")" c || is_char "（" c || is_char "）" c.

(** [[一-龥]] *)
Definition cjk (c : Z) : bool := (19968 <=? c) && (c <=? 40869).

(** [r'[开\s]+[票\s]+[日\s]+[期\s]+[:：]*\s*(\d{4}年\d{2}月\d{2}日)'] *)
Definition date_label_pat : list item :=
  [plus (lbl "开"); plus (lbl "票"); plus (lbl "日"); plus (lbl "期");
   star colon; star is_space].
Definition date_body_pat : list item :=
  [rep is_digit 4; lit "年"; rep is_digit 2; lit "月"; rep is_digit 2; lit "日"].
Definition date_pat : list item := date_label_pat ++ Open 1 :: date_body_pat ++ [Close 1].

(** [r'[价\s]+[税\s]+[合\s]+[计\s]+.*?([小\s]+[写\s]+).*?[¥￥]?\s*([\d\.]+)']
    with [re.DOTALL] *)
Definition amount_pat1 : list item :=
  [plus (lbl "价"); plus (lbl "税"); plus (lbl "合"); plus (lbl "计");
   lazy_star any_char; Open 1; plus (lbl "小"); plus (lbl "写"); Close 1;
   lazy_star any_char; opt yen; star is_space; Open 2; plus digit_or_dot; Close 2].

(** [r'[小\s]+[写\s]+.*?[¥￥]\s*([\d\.]+)'] *)
Definition amount_pat2 : list item :=
  [plus (lbl "小"); plus (lbl "写"); lazy_star not_newline; rep yen 1; star is_space;
   Open 1; plus digit_or_dot; Close 1].

(** [r'[小\s]+[写\s]+.*?\s*([\d\.]+)'] *)
Definition amount_pat3 : list item :=
  [plus (lbl "小"); plus (lbl "写"); lazy_star not_newline; star is_space;
   Open 1; plus digit_or_dot; Close 1].

(** [r'[名\s]+[称\s]+[:：]*\s*([一-龥A-Za-z0-9\(\)（）]+)'] *)
Definition seller_pat : list item :=
  [plus (lbl "名"); plus (lbl "称"); star colon; star is_space;
   Open 1; plus name_cls; Close 1].

(** [r'名称[:：]?([一-龥]+)'] *)
Definition seller_fallback_pat : list item :=
  [lit "名"; lit "称"; opt colon; Open 1; plus cjk; Close 1].

(** ** Field extraction (lines 95-171) *)

(** Lines 97-98. *)
Definition extract_date (first_page_text : text) : option text :=
  match search date_pat first_page_text with
  | Some (_, m) => group first_page_text m 1
  | None => None
  end.

(** A tier of the amount search: [if not amount: m = re.search(...); if m:
    amount = <group of m>]. *)
Definition amount_tier (amount : option text) (p : list item) (t : text)
    (grp : text -> mstate -> option text) : option text :=
  if truthy amount then amount
  else match search p t with
       | Some (_, m) => grp t m
       | None => amount
       end.

Definition tier1 (full_text : text) : option text :=
  match search amount_pat1 full_text with
  | Some (_, m) => group_last full_text m
  | None => None
  end.
Definition tier2 (first_page_text : text) : option text :=
  match search amount_pat2 first_page_text with
  | Some (_, m) => group first_page_text m 1
  | None => None
  end.
Definition tier3 (first_page_text : text) : option text :=
  match search amount_pat3 first_page_text with
  | Some (_, m) => group first_page_text m 1
  | None => None
  end.

(** Lines 105-122. *)
Definition extract_amount (full_text first_page_text : text) : option text :=
  let amount := amount_tier None amount_pat1 full_text group_last in
  let amount := amount_tier amount amount_pat2 first_page_text (fun t m => group t m 1) in
  amount_tier amount amount_pat3 first_page_text (fun t m => group t m 1).

Definition ignored_keywords : list text :=
  [u "规格"; u "型号"; u "项目"; u "货物"; u "劳务"; u "服务"; u "单位"; u "数量"; u "单价"; u "金额"; u "税率"; u "税额"].

Definition company_suffixes : list text := [u "公司"; u "店"; u "行"; u "厂"; u "局"; u "部"].

(** Lines 135-156: the choice among the [findall] matches. *)
Definition select_seller (matches : list text) : option text :=
  match matches with
  | [] => None
  | _ :: _ =>
      let candidates :=
        filter (fun m => negb (existsb (fun k => contains k m) ignored_keywords)) matches in
      let company_candidates :=
        filter (fun c => existsb (fun s => contains s c) company_suffixes) candidates in
      match company_candidates with
      | _ :: _ => Some (last company_candidates [])
      | [] =>
          match candidates with
          | _ :: _ => Some (last candidates [])
          | [] => None
          end
      end
  end.

(** Lines 159-169. *)
Definition seller_fallback (seller : option text) (first_page_text : text) : option text :=
  let clean_text := remove_chars is_space first_page_text in
  if has "销售方" clean_text then
    let parts := split_on (u "销售方") clean_text in
    if Nat.ltb 1 (length parts) then
      let p := last parts [] in
      match search seller_fallback_pat p with
      | Some (_, m) => group p m 1
      | None => seller
      end
    else seller
  else seller.

(** Lines 128-169. *)
Definition extract_seller (first_page_text : text) : option text :=
  let seller := select_seller (findall seller_pat first_page_text) in
  if truthy seller then seller else seller_fallback seller first_page_text.

Record fields := Fields {
  f_date : option text;
  f_seller : option text;
  f_amount : option text;
  f_full_text : option text
}.

Definition no_fields : fields := Fields None None None None.

(** Lines 95-171, once the page texts are known. *)
Definition extract_from_texts (first_page_text full_text : text) : fields :=
  Fields (extract_date first_page_text) (extract_seller first_page_text)
         (extract_amount full_text first_page_text) (Some full_text).

(** ** [extract_items_section] (lines 177-215) *)

(** The index of the first element satisfying [f]
    ([for i, line in enumerate(lines): if ...: break]). *)
Fixpoint find_first (f : text -> bool) (l : list text) : option nat :=
  match l with
  | [] => None
  | x :: l' => if f x then Some O else option_map S (find_first f l')
  end.

Definition is_header (line : text) : bool :=
  has "名称" line && (has "金额" line || has "单价" line || has "数量" line).

Definition is_header_fallback (line : text) : bool :=
  has "名称" line && negb (has "购买方" line) && negb (has "销售方" line).

Definition is_footer (line : text) : bool := has "合计" line || has "价税合计" line.

Definition extract_items_section (t : text) : text :=
  let lines := split_char 10 t in
  let start_index :=
    match find_first is_header lines with
    | Some i => Some i
    | None => find_first is_header_fallback lines
    end in
  match start_index with
  | Some s =>
      match find_first is_footer (skipn (S s) lines) with
      | Some j =>
          (* lines[start_index+1:end_index] with end_index = start_index+1+j *)
          join [10] (firstn j (skipn (S s) lines))
      | None => join [10] (skipn (S s) lines)
      end
  | None => t
  end.

(** ** Base URL normalisation and summary clean-up ([get_invoice_summary]) *)

(** Lines 18-21. *)
Definition normalize_base_url (base_url : text) : text :=
  if truthy (Some base_url) && negb (endswith base_url (u "/v1"))
     && negb (endswith base_url (u "/v1/")) then
    if Nat.leb (count_char (ch "/") base_url) 3 then
      rstrip_by (Z.eqb (ch "/")) base_url ++ u "/v1"
    else base_url
  else base_url.

(** Case folding of [re.IGNORECASE] on the letters of the prefixes below:
    ASCII letters, and the long s and Kelvin sign that Unicode folds to
    [s] and [k]. *)
Definition fold_char (c : Z) : Z :=
  if (65 <=? c) && (c <=? 90) then c + 32
  else if Z.eqb c 383 then 115
  else if Z.eqb c 8490 then 107
  else c.

Definition prefix_ci (w s : text) : bool := prefixb (map fold_char w) (map fold_char s).

(** [re.sub(r'^(Output|Summary|Answer)[:：\s]*', '', s, flags=re.IGNORECASE)]:
    the anchored alternatives in order, then the greedy run. *)
Definition strip_answer_prefix (s : text) : text :=
  let after (w : text) := if prefix_ci w s then Some (skipn (length w) s) else None in
  match first_some after [u "Output"; u "Summary"; u "Answer"] with
  | Some r => drop_while (fun c => colon c || is_space c) r
  | None => s
  end.

(** The nine characters < > : (double quote) / \ | ? * removed from the filename, as code points; the summary clean-up also removes the two line breaks. *)
Definition filename_forbidden (c : Z) : bool :=
  existsb (Z.eqb c) [60; 62; 58; 34; 47; 92; 124; 63; 42].

Definition summary_forbidden (c : Z) : bool :=
  filename_forbidden c || Z.eqb c 10 || Z.eqb c 13.

(** Lines 58-67 on the message content. *)
Definition clean_summary (content : text) : text :=
  let summary := strip_by is_space content in
  let summary := strip_answer_prefix summary in
  let summary := strip_by (fun c => Z.eqb c 34 || Z.eqb c 39 || Z.eqb c 32) summary in
  remove_chars summary_forbidden summary.

(** ** Filename building (lines 268-281) *)

(** [r'(\d{4})年(\d{2})月(\d{2})日'] *)
Definition date_fmt_pat : list item :=
  [Open 1; rep is_digit 4; Close 1; lit "年"; Open 2; rep is_digit 2; Close 2;
   lit "月"; Open 3; rep is_digit 2; Close 3; lit "日"].

(** Lines 274-277. *)
Definition format_date (date : text) : text :=
  match rmatch date_fmt_pat date with
  | Some m =>
      match group date m 1, group date m 2, group date m 3 with
      | Some y, Some mo, Some d => y ++ u "." ++ mo ++ u "." ++ d
      | _, _, _ => date
      end
  | None => date
  end.

(** Lines 268-269. *)
Definition middle_or_unknown (middle_part : option text) : text :=
  match middle_part with
  | Some (c :: r) => c :: r
  | _ => u "Unknown"
  end.

(** Lines 274-281. *)
Definition build_filename (date middle_part amount : text) : text :=
  remove_chars filename_forbidden
    (format_date date ++ u "-" ++ middle_part ++ u "-" ++ amount ++ u ".pdf").

(** A line break, for writing multi-line inputs. *)
Definition nl : text := [10].

(** ** Exceptions and the output log *)

(** A Python exception deriving from [Exception], with its message. *)
Inductive exn := Exn (msg : text).

Inductive Exc (A : Type) : Type :=
| Ok (a : A)
| Raise (e : exn).
Arguments Ok {A} a.
Arguments Raise {A} e.

Definition bind {A B : Type} (m : Exc A) (f : A -> Exc B) : Exc B :=
  match m with Ok a => f a | Raise e => Raise e end.

Notation "x <- m ;; k" := (bind m (fun x => k))
  (at level 61, m at next level, right associativity).

(** [l[i]] *)
Definition nth_exc {A : Type} (l : list A) (i : nat) : Exc A :=
  match nth_error l i with
  | Some a => Ok a
  | None => Raise (Exn (u "list index out of range"))
  end.

(** The lines the script prints. *)
Inductive logline :=
| LExtractError (path : text) (e : exn)        (* line 174 *)
| LAiBadFormat                                  (* line 55 *)
| LAiFailed (e : exn)                           (* line 69 *)
| LAiHint                                       (* line 71 *)
| LProcessing (name : text)                     (* line 246 *)
| LGenerating                                   (* line 255 *)
| LSending (items full : nat)                   (* line 260 *)
| LSummary (summary : text)                     (* line 266 *)
| LCreated (name : text)                        (* line 288 *)
| LCopyFailed (e : exn)                         (* line 291 *)
| LFailedExtract (name : text) (date seller amount : option text)  (* line 293 *)
| LDone (count : nat).                          (* line 295 *)

(** ** [extract_invoice_data] (lines 74-175) against the PDF library *)

Section Pdf.

(** pdfplumber: opening a file, the pages of a document, the text of a page
    ([None] for a page without text) and closing; each may raise. *)
Variables Doc Page : Type.
Variable pdf_open : text -> Exc Doc.
Variable pdf_pages : Doc -> list Page.
Variable extract_text : Page -> Exc (option text).
Variable pdf_close : Doc -> Exc unit.

(** Lines 86-90. *)
Fixpoint collect_text (ps : list Page) (full_text : text) : Exc text :=
  match ps with
  | [] => Ok full_text
  | p :: ps' =>
      page_text <- extract_text p ;;
      collect_text ps'
        (match page_text with
         | Some (c :: r) => full_text ++ (c :: r) ++ nl
         | _ => full_text
         end)
  end.

(** Lines 82-171: the body of the [with] block. *)
Definition with_body (pdf : Doc) : Exc fields :=
  first_page <- nth_exc (pdf_pages pdf) 0 ;;
  first_page_text <- extract_text first_page ;;
  full_text <- collect_text (pdf_pages pdf) [] ;;
  match first_page_text with
  | Some (c :: r) => Ok (extract_from_texts (c :: r) full_text)
  | _ => Ok no_fields
  end.

(** [with pdfplumber.open(file_path) as pdf: ...]: the document is closed on
    the way out, whether the body returned or raised; an exception of
    [close] replaces the body's. *)
Definition with_pdf {A : Type} (file_path : text) (body : Doc -> Exc A) : Exc A :=
  pdf <- pdf_open file_path ;;
  match body pdf with
  | Ok r => _ <- pdf_close pdf ;; Ok r
  | Raise e =>
      match pdf_close pdf with
      | Ok _ => Raise e
      | Raise e' => Raise e'
      end
  end.

(** Lines 79-175: [try: ... except Exception as e: print(...); return None, ...]. *)
Definition extract_invoice_data (file_path : text) : Exc (list logline * fields) :=
  match with_pdf file_path with_body with
  | Ok r => Ok ([], r)
  | Raise e => Ok ([LExtractError file_path e], no_fields)
  end.

End Pdf.

Arguments collect_text {Page} extract_text ps full_text.
Arguments with_body {Doc Page} pdf_pages extract_text pdf.
Arguments with_pdf {Doc} pdf_open pdf_close {A} file_path body.
Arguments extract_invoice_data {Doc Page} pdf_open pdf_pages extract_text pdf_close file_path.

(** ** [get_invoice_summary] and [main] *)

(** The reply of [client.chat.completions.create]: an object without
    [choices], or the message contents of its choices ([None] for a missing
    content). *)
Inductive response :=
| NoChoices
| Choices (contents : list (option text)).

(** An input file: its path and [pdf_file.name]. *)
Record pdf_file := PdfFile { path : text; name : text }.

(** The command-line options the loop reads ([--model] and [--temperature]
    are forwarded unchanged to the API call). *)
Record args := Args { verbose : bool; api_key : option text; base_url : text }.

(** The state of the loop: [count], the files written to the output
    directory (destination name and source path, in order) and the printed
    lines. *)
Record batch := Batch { count : nat; written : list (text * text); out : list logline }.

Section Main.

Variables Doc Page : Type.
Variable pdf_open : text -> Exc Doc.
Variable pdf_pages : Doc -> list Page.
Variable extract_text : Page -> Exc (option text).
Variable pdf_close : Doc -> Exc unit.

(** [OpenAI(api_key=..., base_url=...).chat.completions.create(...)] on the
    fixed prompt around the given invoice text; it may raise. *)
Variable chat_create : text -> text -> text -> Exc response.

(** [shutil.copy2(src, output_dir / name)]; it may raise. *)
Variable copy2 : text -> text -> Exc unit.

(** Lines 11-72. *)
Definition get_invoice_summary (t key url : text) : list logline * option text :=
  let url := normalize_base_url url in
  let failed (e : exn) :=
    let '(Exn m) := e in
    (LAiFailed e :: (if has "object has no attribute 'choices'" m then [LAiHint] else []), None) in
  match chat_create key url (firstn 2500 t) with
  | Raise e => failed e
  | Ok NoChoices => ([LAiBadFormat], None)
  | Ok (Choices []) => failed (Exn (u "list index out of range"))
  | Ok (Choices (None :: _)) =>
      failed (Exn (u "'NoneType' object has no attribute 'strip'"))
  | Ok (Choices (Some content :: _)) => ([], Some (clean_summary content))
  end.

(** Lines 245-293: one file of the loop. *)
Definition process_file (a : args) (b : batch) (f : pdf_file) : Exc batch :=
  let log0 := if verbose a then [LProcessing (name f)] else [] in
  r <- extract_invoice_data pdf_open pdf_pages extract_text pdf_close (path f) ;;
  let '(elog, fl) := r in
  let out0 := out b ++ log0 ++ elog in
  match f_date fl, f_amount fl with
  | Some (d0 :: dr), Some (a0 :: ar) =>
      let '(slog, middle_part) :=
        match api_key a, f_full_text fl with
        | Some (k0 :: kr), Some (t0 :: tr) =>
            let items_text := extract_items_section (t0 :: tr) in
            let vlog :=
              if verbose a then [LGenerating; LSending (length items_text) (length (t0 :: tr))]
              else [] in
            let '(alog, summary) := get_invoice_summary items_text (k0 :: kr) (base_url a) in
            match summary with
            | Some (s0 :: sr) =>
                (vlog ++ alog ++ (if verbose a then [LSummary (s0 :: sr)] else []), summary)
            | _ => (vlog ++ alog, f_seller fl)
            end
        | _, _ => ([], f_seller fl)
        end in
      let new_filename := build_filename (d0 :: dr) (middle_or_unknown middle_part) (a0 :: ar) in
      match copy2 (path f) new_filename with
      | Ok _ =>
          Ok (Batch (S (count b)) (written b ++ [(new_filename, path f)])
                    (out0 ++ slog ++ (if verbose a then [LCreated new_filename] else [])))
      | Raise e => Ok (Batch (count b) (written b) (out0 ++ slog ++ [LCopyFailed e]))
      end
  | date, amount =>
      Ok (Batch (count b) (written b)
                (out0 ++ [LFailedExtract (name f) date (f_seller fl) amount]))
  end.

(** Lines 243-295, over the files of [input_dir.glob('*.pdf')]. *)
Fixpoint process_all (a : args) (b : batch) (files : list pdf_file) : Exc batch :=
  match files with
  | [] => Ok b
  | f :: fs => b' <- process_file a b f ;; process_all a b' fs
  end.

Definition main_loop (a : args) (files : list pdf_file) : Exc batch :=
  b <- process_all a (Batch 0 [] []) files ;;
  Ok (Batch (count b) (written b) (out b ++ [LDone (count b)])).

End Main.

Arguments process_file {Doc Page} pdf_open pdf_pages extract_text pdf_close chat_create copy2 a b f.
Arguments process_all {Doc Page} pdf_open pdf_pages extract_text pdf_close chat_create copy2 a b files.
Arguments main_loop {Doc Page} pdf_open pdf_pages extract_text pdf_close chat_create copy2 a files.

(** The language of a sequence of atoms. *)
Inductive sem : list item -> text -> Prop :=
| sem_nil : sem [] []
| sem_atom cls lo hi g q w w' :
    (lo <= length w)%nat ->
    (forall h, hi = Some h -> length w <= h)%nat ->
    forallb cls w = true ->
    sem q w' ->
    sem (Atom cls lo hi g :: q) (w ++ w').

Definition is_atom (it : item) : bool :=
  match it with Atom _ _ _ _ => true | _ => false end.

(** ** Shapes the claims speak about *)

(** [YYYY年MM月DD日], [\d] being [is_digit]. *)
Definition is_date_shape (w : text) : bool :=
  match w with
  | [y1; y2; y3; y4; n; m1; m2; m; d1; d2; r] =>
      forallb is_digit [y1; y2; y3; y4; m1; m2; d1; d2]
      && is_char "年" n && is_char "月" m && is_char "日" r
  | _ => false
  end.

(** [YYYY.MM.DD] from a date of that shape. *)
Definition dotted (w : text) : text :=
  firstn 4 w ++ u "." ++ firstn 2 (skipn 5 w) ++ u "." ++ firstn 2 (skipn 8 w).



(** The amount patterns without their final group [([\d\.]+)]. *)
Definition amount_pre1 : list item :=
  [plus (lbl "价"); plus (lbl "税"); plus (lbl "合"); plus (lbl "计");
   lazy_star any_char; Open 1; plus (lbl "小"); plus (lbl "写"); Close 1;
   lazy_star any_char; opt yen; star is_space].
Definition amount_pre2 : list item :=
  [plus (lbl "小"); plus (lbl "写"); lazy_star not_newline; rep yen 1; star is_space].
Definition amount_pre3 : list item :=
  [plus (lbl "小"); plus (lbl "写"); lazy_star not_newline; star is_space].

(** What a tier finds in [t]: the pattern [p] first matches at [j], where
    the text starts with a word [w] of the atoms of [pre] followed by the
    amount [a], a non-empty run of digits and dots. *)
Definition tier_found (pre p : list item) (t a : text) : Prop :=
  exists j w s3, skipn j t = w ++ a ++ s3 /\ sem (filter is_atom pre) w /\
    a <> [] /\ forallb digit_or_dot a = true /\
    mtch p (skipn j t) (init j) <> None /\
    (forall k, (k < j)%nat -> mtch p (skipn k t) (init k) = None).

(** Index [i] of [l] is the first whose element satisfies [f]. *)
Definition first_at (f : text -> bool) (l : list text) (i : nat) : Prop :=
  (exists x, nth_error l i = Some x /\ f x = true) /\
  (forall k x, (k < i)%nat -> nth_error l k = Some x -> f x = false).

(** The header line of the items section: the first line with [名称] and
    one of [金额], [单价], [数量]; failing any such line, the first line with
    [名称] mentioning neither [购买方] nor [销售方]. *)
Definition header_at (lines : list text) (s : nat) : Prop :=
  first_at is_header lines s \/
  ((forall x, In x lines -> is_header x = false) /\ first_at is_header_fallback lines s).

(** The footer line: the first line after the header [s] containing [合计]. *)
Definition footer_at (lines : list text) (s e : nat) : Prop :=
  (s < e)%nat /\ (exists x, nth_error lines e = Some x /\ is_footer x = true) /\
  (forall k x, (s < k < e)%nat -> nth_error lines k = Some x -> is_footer x = false).

(** A [findall] match that no table-header keyword rules out, and one that
    carries a company suffix. *)
Definition survives (m : text) : bool :=
  negb (existsb (fun k => contains k m) ignored_keywords).
Definition companyish (c : text) : bool :=
  existsb (fun s => contains s c) company_suffixes.

(** The string of an optional string, empty for [None]. *)
Definition opt_text (o : option text) : text :=
  match o with Some x => x | None => [] end.

(** The AI summary [process_file] asks for (lines 253-262): only with a
    non-empty API key and a non-empty full text. *)
Definition ai_summary (chat_create : text -> text -> text -> Exc response)
    (a : args) (fl : fields) : option text :=
  match api_key a, f_full_text fl with
  | Some (k0 :: kr), Some (t0 :: tr) =>
      snd (get_invoice_summary chat_create (extract_items_section (t0 :: tr)) (k0 :: kr)
             (base_url a))
  | _, _ => None
  end.

(** A character allowed in the output file name: none of
    < > : (double quote) / \ | ? * and no line break. *)
Definition name_safe (c : Z) : bool := negb (summary_forbidden c).

(** Characters other than [\d]. *)
Definition nondigit (c : Z) : bool := negb (is_digit c).

(** The elements of the first list appear in the second, in the same order. *)
Inductive sublist {A : Type} : list A -> list A -> Prop :=
| sublist_nil : sublist [] []
| sublist_skip x l1 l2 : sublist l1 l2 -> sublist l1 (x :: l2)
| sublist_keep x l1 l2 : sublist l1 l2 -> sublist (x :: l1) (x :: l2).

(** [l] occurs as a contiguous part of [t]. *)
Definition infix (l t : text) : Prop := exists p s, t = p ++ l ++ s.

(** The printed lines that end the handling of a file without a copy
    (lines 291 and 293). *)
Definition outcome_line (l : logline) : bool :=
  match l with
  | LCopyFailed _ | LFailedExtract _ _ _ _ => true
  | _ => false
  end.

(** The lines printed only under [--verbose] (lines 246, 255, 260, 266, 288). *)
Definition verbose_line (l : logline) : bool :=
  match l with
  | LProcessing _ | LGenerating | LSending _ _ | LSummary _ | LCreated _ => true
  | _ => false
  end.

(** What the text of one page adds to the full text (lines 88-90). *)
Definition page_piece (o : option text) : text :=
  match o with
  | Some (c :: r) => (c :: r) ++ nl
  | _ => []
  end.

(** A one-page invoice: its page text. *)
Definition sample_page : text :=
  u "开票日期：2024年03月15日" ++ nl ++ u "名称：YY商店" ++ nl ++
  u "价税合计（大写）玖拾玖圆整 （小写）¥99.00".

(** * Properties of the matcher *)

Local Open Scope nat_scope.

Lemma first_some_Some {A B : Type} (f : A -> option B) (l : list A) (b : B) :
  first_some f l = Some b -> exists x, In x l /\ f x = Some b.
Proof.
  induction l as [|x l IH]; simpl; [discriminate|].
  destruct (f x) eqn:E.
  - intros H; inversion H; subst; eauto.
  - intros H; destruct (IH H) as (y & Hy & Hf); eauto.
Qed.

Lemma counts_In lo hi n g k :
  In k (counts lo hi n g) ->
  lo <= k /\ k <= n /\ (forall h, hi = Some h -> k <= h).
Proof.
  unfold counts; intros H.
  assert (Hs : In k (seq lo (S (match hi with Some h => Nat.min h n | None => n end) - lo))).
  { destruct g; [apply in_rev|]; exact H. }
  apply in_seq in Hs.
  destruct hi as [h|]; split; try lia; split; try lia.
  - intros h' E; inversion E; subst; lia.
  - intros h' E; discriminate.
Qed.

Lemma run_len_le cls bound s : run_len cls bound s <= length s.
Proof.
  revert bound; induction s as [|c s IH]; intros [[|b]|]; simpl; try lia;
    destruct (cls c); simpl; try specialize (IH (Some b)); try specialize (IH None); lia.
Qed.

Lemma run_len_forall cls bound s k :
  k <= run_len cls bound s -> forallb cls (firstn k s) = true.
Proof.
  revert bound k; induction s as [|c s IH]; intros bound k Hk.
  - rewrite firstn_nil; reflexivity.
  - destruct k as [|k]; [reflexivity|].
    simpl in Hk |- *.
    destruct bound as [[|b]|]; [lia| |];
      destruct (cls c) eqn:E; try lia; simpl.
    + apply (IH (Some b)); lia.
    + apply (IH None); lia.
Qed.

Lemma advance_advance st a b : advance (advance st a) b = advance st (a + b).
Proof. unfold advance; simpl; f_equal; lia. Qed.

Lemma advance_0 st : advance st 0 = st.
Proof. destruct st; unfold advance; simpl; f_equal; lia. Qed.

(** A successful match of a sequence of atoms followed by more pattern
    consumes a word of the atoms' language. *)
Lemma mtch_atoms_app q p s st st' :
  forallb is_atom q = true ->
  mtch (q ++ p) s st = Some st' ->
  exists w s2, s = w ++ s2 /\ sem q w /\ mtch p s2 (advance st (length w)) = Some st'.
Proof.
  revert s st; induction q as [|it q IH]; intros s st Hq H.
  - exists [], s; split; [reflexivity|]; split; [constructor|].
    rewrite advance_0; exact H.
  - destruct it as [cls lo hi g| |]; try discriminate; simpl in Hq, H.
    apply first_some_Some in H as (k & Hk & Hm).
    apply counts_In in Hk as (Hlo & Hrun & Hhi).
    destruct (IH _ _ Hq Hm) as (w & s2 & Hs & Hsem & Hp).
    exists (firstn k s ++ w), s2.
    assert (Hlen : length (firstn k s) = k).
    { apply firstn_length_le. pose proof (run_len_le cls hi s); lia. }
    split; [rewrite <- app_assoc, <- Hs, firstn_skipn; reflexivity|].
    split.
    + apply sem_atom; try assumption.
      * rewrite Hlen; exact Hlo.
      * intros h E; specialize (Hhi h E); lia.
      * eapply run_len_forall; eauto.
    + rewrite advance_advance in Hp. rewrite length_app, Hlen. exact Hp.
Qed.

(** A match of [pre (body) post] with atoms [pre] and [body]: group [n]
    spans the word of [body]. *)
Lemma mtch_group pre n body post s st st' :
  forallb is_atom pre = true -> forallb is_atom body = true ->
  mtch (pre ++ Open n :: body ++ Close n :: post) s st = Some st' ->
  exists w1 w2 s3, s = w1 ++ w2 ++ s3 /\ sem pre w1 /\ sem body w2 /\
    mtch post s3
      (MState (pos st + length w1 + length w2) ((n, pos st + length w1) :: opens st)
              ((n, (pos st + length w1, pos st + length w1 + length w2)) :: caps st))
    = Some st'.
Proof.
  intros Hpre Hbody H.
  destruct (mtch_atoms_app _ _ _ _ _ Hpre H) as (w1 & s2 & Hs & Hsem1 & H2).
  simpl in H2.
  destruct (mtch_atoms_app _ _ _ _ _ Hbody H2) as (w2 & s3 & Hs2 & Hsem2 & H3).
  simpl in H3. rewrite Nat.eqb_refl in H3.
  exists w1, w2, s3. subst. repeat split; auto.
Qed.

Lemma substr_mid t i w1 w2 s3 :
  skipn i t = w1 ++ w2 ++ s3 ->
  substr t (i + length w1) (i + length w1 + length w2) = w2.
Proof.
  intros H. unfold substr.
  replace (i + length w1 + length w2 - (i + length w1)) with (length w2) by lia.
  rewrite Nat.add_comm, <- skipn_skipn, H, skipn_app, Nat.sub_diag, skipn_all, skipn_0.
  simpl. rewrite firstn_app, Nat.sub_diag, firstn_all. simpl. apply app_nil_r.
Qed.

Lemma search_at_Some p s i j st :
  search_at p s i = Some (j, st) ->
  i <= j /\ j <= i + length s /\ mtch p (skipn (j - i) s) (init j) = Some st /\
  (forall k, i <= k < j -> mtch p (skipn (k - i) s) (init k) = None).
Proof.
  revert i; induction s as [|c s IH]; intros i H; simpl in H.
  - destruct (mtch p [] (init i)) eqn:E; [|discriminate].
    inversion H; subst. rewrite Nat.sub_diag. repeat split; auto; intros; lia.
  - destruct (mtch p (c :: s) (init i)) eqn:E.
    + inversion H; subst. rewrite Nat.sub_diag. repeat split; simpl; auto; intros; lia.
    + destruct (IH _ H) as (H1 & H2 & H3 & H4).
      repeat split; simpl; try lia.
      * replace (j - i) with (S (j - S i)) by lia. exact H3.
      * intros k Hk. destruct (Nat.eq_dec k i) as [->|Hne].
        -- rewrite Nat.sub_diag. exact E.
        -- replace (k - i) with (S (k - S i)) by lia. apply H4. lia.
Qed.



Lemma sem_rep_inv cls n q w :
  sem (rep cls n :: q) w ->
  exists wa w', w = wa ++ w' /\ length wa = n /\ forallb cls wa = true /\ sem q w'.
Proof.
  intros H; inversion H as [|cls' lo hi g q' wa w' Hlo Hhi Hall Hq]; subst.
  exists wa, w'. repeat split; auto.
  specialize (Hhi n eq_refl). lia.
Qed.

Ltac split_bools :=
  repeat match goal with
         | H : _ && _ = true |- _ => apply andb_prop in H as [? ?]
         end.

Ltac rewrite_trues :=
  repeat match goal with
         | H : ?x = true |- _ => rewrite H; clear H
         end.

Lemma sem_date_body w : sem date_body_pat w -> is_date_shape w = true.
Proof.
  intros H.
  apply sem_rep_inv in H as (w1 & r1 & -> & L1 & F1 & H).
  apply sem_rep_inv in H as (w2 & r2 & -> & L2 & F2 & H).
  apply sem_rep_inv in H as (w3 & r3 & -> & L3 & F3 & H).
  apply sem_rep_inv in H as (w4 & r4 & -> & L4 & F4 & H).
  apply sem_rep_inv in H as (w5 & r5 & -> & L5 & F5 & H).
  apply sem_rep_inv in H as (w6 & r6 & -> & L6 & F6 & H).
  inversion H; subst.
  destruct w1 as [|a1 [|a2 [|a3 [|a4 [|]]]]]; try discriminate.
  destruct w2 as [|b1 [|]]; try discriminate.
  destruct w3 as [|c1 [|c2 [|]]]; try discriminate.
  destruct w4 as [|e1 [|]]; try discriminate.
  destruct w5 as [|f1 [|f2 [|]]]; try discriminate.
  destruct w6 as [|g1 [|]]; try discriminate.
  simpl in *. split_bools. rewrite_trues. reflexivity.
Qed.



Lemma date_shape_length w : is_date_shape w = true -> length w = 11.
Proof.
  intros H.
  destruct w as [|y1 [|y2 [|y3 [|y4 [|n [|m1 [|m2 [|m [|d1 [|d2 [|r [|]]]]]]]]]]]];
    try discriminate; reflexivity.
Qed.

(** The date pattern's group is a date-shaped infix of the subject, found
    after a word of the label atoms. *)
Lemma extract_date_Some t d :
  extract_date t = Some d ->
  exists j w1 s3, skipn j t = w1 ++ d ++ s3 /\ sem date_label_pat w1 /\
    is_date_shape d = true /\ search date_pat t = Some (j, MState (j + length w1 + length d)
      [(1, j + length w1)] [(1, (j + length w1, j + length w1 + length d))]).
Proof.
  unfold extract_date, search. destruct (search_at date_pat t 0) as [[j m]|] eqn:E;
    [|discriminate].
  intros Hg.
  destruct (search_at_Some _ _ _ _ _ E) as (_ & _ & Hm & _).
  rewrite Nat.sub_0_r in Hm. unfold date_pat in Hm.
  apply mtch_group in Hm as (w1 & w2 & s3 & Hs & Hs1 & Hs2 & Hpost); try reflexivity.
  simpl in Hpost. inversion Hpost; subst m. clear Hpost.
  unfold group in Hg; simpl in Hg; inversion Hg; subst d. clear Hg.
  rewrite (substr_mid _ _ _ _ _ Hs).
  exists j, w1, s3. repeat split; auto. apply sem_date_body; auto.
Qed.

(** [format_date] on a string that starts with a date of the shape. *)
Lemma format_date_prefix D S :
  is_date_shape D = true -> format_date (D ++ S) = dotted D.
Proof.
  intros H.
  destruct D as [|y1 [|y2 [|y3 [|y4 [|n [|m1 [|m2 [|m [|d1 [|d2 [|r [|]]]]]]]]]]]];
    try discriminate.
  simpl in H. split_bools.
  unfold format_date, rmatch.
  do 6 (simpl; rewrite_trues).
  reflexivity.
Qed.


(** ** Taking the longest run first *)




Lemma forallb_weaken (f g : Z -> bool) l :
  (forall c, f c = true -> g c = true) -> forallb f l = true -> forallb g l = true.
Proof.
  intros Hfg H. apply forallb_forall. intros c Hc.
  rewrite forallb_forall in H. auto.
Qed.




Lemma is_char_eq s c : is_char s c = true -> c = ch s.
Proof. unfold is_char. apply Z.eqb_eq. Qed.





(** ** The date pattern on a labelled date *)

Lemma date_shape_chars w c :
  is_date_shape w = true -> In c w ->
  is_digit c = true \/ c = ch "年" \/ c = ch "月" \/ c = ch "日".
Proof.
  intros H Hc.
  destruct w as [|y1 [|y2 [|y3 [|y4 [|n [|m1 [|m2 [|m [|d1 [|d2 [|r [|]]]]]]]]]]]];
    try discriminate.
  simpl in H. split_bools.
  repeat (apply is_char_eq in H0 || apply is_char_eq in H1 || apply is_char_eq in H2).
  simpl in Hc. repeat destruct Hc as [Hc|Hc]; subst; auto; contradiction.
Qed.

















Lemma format_date_None d : rmatch date_fmt_pat d = None -> format_date d = d.
Proof. intros H. unfold format_date. rewrite H. reflexivity. Qed.

Lemma dotted_length d : length d = 11 -> length (dotted d) = 10.
Proof.
  intros Hl. unfold dotted.
  rewrite !length_app, !length_firstn, !length_skipn, Hl. reflexivity.
Qed.

(** * The claims *)




(** C9 (confirmed).  A date the extractor returns always has the shape
    [YYYY年MM月DD日]; on it the filename builder's anchored match succeeds,
    so the date part is the dotted date and never the pass-through. *)
Theorem extracted_date_always_reformatted t d :
  extract_date t = Some d ->
  is_date_shape d = true /\ rmatch date_fmt_pat d <> None /\ format_date d = dotted d.
Proof.
  intros H. destruct (extract_date_Some _ _ H) as (j & w1 & s3 & _ & _ & Hd & _).
  assert (Hf : format_date d = dotted d).
  { rewrite <- (app_nil_r d) at 1. apply format_date_prefix; assumption. }
  repeat split; auto.
  intros Hn. rewrite (format_date_None _ Hn) in Hf.
  apply (f_equal (@length Z)) in Hf.
  rewrite dotted_length in Hf by exact (date_shape_length _ Hd).
  rewrite (date_shape_length _ Hd) in Hf. discriminate Hf.
Qed.

(** C9: the date of [开票日期：2024年03月15日]. *)
Lemma extracted_date_always_reformatted_witness :
  extract_date (u "开票日期：2024年03月15日") = Some (u "2024年03月15日") /\
  format_date (u "2024年03月15日") = u "2024.03.15".
Proof.
  assert (E : extract_date (u "开票日期：2024年03月15日") = Some (u "2024年03月15日"))
    by (vm_compute; reflexivity).
  split; [exact E|].
  destruct (extracted_date_always_reformatted _ _ E) as (_ & _ & H).
  rewrite H. vm_compute. reflexivity.
Defined.

(** C10 (confirmed).  For a one-page document whose page text is
    [价税合计小写¥.], the extraction succeeds and its amount is [.]: a
    non-empty string of dots with no digit, as [[\d\.]+] admits. *)
Theorem amount_may_be_only_dots :
  exists t a,
    with_body (fun _ : unit => [tt]) (fun _ : unit => Ok (Some t)) tt =
      Ok (extract_from_texts t (t ++ nl)) /\
    f_amount (extract_from_texts t (t ++ nl)) = Some a /\
    a <> [] /\ forallb (is_char ".") a = true /\ forallb nondigit a = true.
Proof.
  exists (u "价税合计小写¥."), (u ".").
  split; [vm_compute; reflexivity|].
  split; [vm_compute; reflexivity|].
  split; [discriminate|].
  split; vm_compute; reflexivity.
Qed.

(** C8 (code bug).  A URL that ends in a version segment other than [v1]
    but has at most three slashes still gets [/v1] appended, although the
    comment of line 16 excludes URLs already ending in a version number. *)
Theorem base_url_version_appended :
  normalize_base_url (u "https://api.example.com/v2") = u "https://api.example.com/v2/v1".
Proof. vm_compute. reflexivity. Qed.

(** ** The seller choice *)

Lemma filter_nil_forallb {A : Type} (f : A -> bool) l :
  filter f l = [] <-> forallb (fun x => negb (f x)) l = true.
Proof.
  induction l as [|x l IH]; simpl; [tauto|].
  destruct (f x); simpl; [split; discriminate|exact IH].
Qed.

Lemma last_filter {A : Type} (f : A -> bool) l s d :
  (filter f l <> [] /\ last (filter f l) d = s) <->
  exists pre post, l = pre ++ s :: post /\ f s = true /\
    forallb (fun x => negb (f x)) post = true.
Proof.
  induction l as [|x l IH]; simpl.
  - split; [tauto|]. intros (pre & post & E & _). destruct pre; discriminate.
  - destruct (filter f l) as [|y fl] eqn:Ef.
    + apply filter_nil_forallb in Ef as Hall.
      destruct (f x) eqn:Fx; simpl.
      * split.
        -- intros [_ <-]. exists [], l. auto.
        -- intros (pre & post & E & Fs & Hp). split; [discriminate|].
           destruct pre as [|z pre]; simpl in E; inversion E; subst; [reflexivity|].
           exfalso. rewrite forallb_app in Hall. simpl in Hall. rewrite Fs in Hall.
           rewrite andb_false_r in Hall. discriminate.
      * split; [tauto|].
        intros (pre & post & E & Fs & Hp).
        destruct pre as [|z pre]; simpl in E; inversion E; subst; [congruence|].
        rewrite forallb_app in Hall. simpl in Hall. rewrite Fs in Hall.
        rewrite andb_false_r in Hall. discriminate.
    + assert (Hl : forall z, last (z :: y :: fl) d = last (y :: fl) d) by reflexivity.
      assert (E1 : (if f x then x :: y :: fl else y :: fl) <> [] /\
                   last (if f x then x :: y :: fl else y :: fl) d = s <->
                   y :: fl <> [] /\ last (y :: fl) d = s).
      { destruct (f x); [rewrite Hl|]; split; intros [_ H]; split; auto; discriminate. }
      rewrite E1, IH. split.
      * intros (pre & post & -> & Fs & Hp). exists (x :: pre), post. auto.
      * intros (pre & post & E & Fs & Hp).
        destruct pre as [|z pre]; simpl in E; inversion E; subst.
        -- exfalso. apply filter_nil_forallb in Hp. congruence.
        -- exists pre, post. auto.
Qed.

Lemma filter_filter_andb {A : Type} (f g : A -> bool) l :
  filter g (filter f l) = filter (fun x => f x && g x) l.
Proof.
  induction l as [|x l IH]; simpl; [reflexivity|].
  destruct (f x); simpl; [destruct (g x)|]; rewrite ?IH; reflexivity.
Qed.

Lemma select_seller_eq ms :
  select_seller ms =
  match filter (fun m => survives m && companyish m) ms with
  | _ :: _ => Some (last (filter (fun m => survives m && companyish m) ms) [])
  | [] =>
      match filter survives ms with
      | _ :: _ => Some (last (filter survives ms) [])
      | [] => None
      end
  end.
Proof.
  destruct ms as [|m ms]; [reflexivity|].
  unfold select_seller.
  change (fun m0 => negb (existsb (fun k => contains k m0) ignored_keywords)) with survives.
  change (fun c => existsb (fun s => contains s c) company_suffixes) with companyish.
  rewrite filter_filter_andb. reflexivity.
Qed.

(** C2 (confirmed).  The choice among the [findall] matches [ms]: it returns
    [s] exactly when [s] is the last match that survives the table-header
    keywords and has a company suffix, or, when no surviving match has a
    company suffix, the last surviving match.  The extractor returns that
    choice whenever it is a non-empty string; on the matches
    [规格型号A], [XX贸易有限公司], [YY商店] it returns [YY商店], also from
    a page with these three [名称] lines. *)
Theorem seller_selection :
  (forall ms s, select_seller ms = Some s <->
     (exists pre post, ms = pre ++ s :: post /\ survives s && companyish s = true /\
        forallb (fun m => negb (survives m && companyish m)) post = true)
     \/ (forallb (fun m => negb (survives m && companyish m)) ms = true /\
         exists pre post, ms = pre ++ s :: post /\ survives s = true /\
           forallb (fun m => negb (survives m)) post = true)) /\
  (forall t, truthy (select_seller (findall seller_pat t)) = true ->
     extract_seller t = select_seller (findall seller_pat t)) /\
  select_seller [u "规格型号A"; u "XX贸易有限公司"; u "YY商店"] = Some (u "YY商店") /\
  extract_seller (u "名称：规格型号A" ++ nl ++ u "名称：XX贸易有限公司" ++ nl ++
                  u "名称：YY商店") = Some (u "YY商店").
Proof.
  split; [|split; [|split]].
  - intros ms s. rewrite select_seller_eq.
    set (SC := fun m => survives m && companyish m).
    destruct (filter SC ms) as [|y fl] eqn:E1.
    + apply filter_nil_forallb in E1 as Hall.
      destruct (filter survives ms) as [|z fs] eqn:E2.
      * split; [discriminate|].
        intros [(pre & post & E & Hs & _)|(_ & pre & post & E & Hs & _)]; subst ms.
        -- assert (H : filter SC (pre ++ s :: post) <> []).
           { rewrite filter_app. simpl. unfold SC at 2. rewrite Hs.
             destruct (filter SC pre); discriminate. }
           congruence.
        -- rewrite filter_app in E2. simpl in E2. rewrite Hs in E2.
           destruct (filter survives pre); discriminate.
      * split.
        -- intros H. injection H as Hl. right. split; [exact Hall|].
           apply (proj1 (last_filter survives ms s [])). rewrite E2. split; auto. discriminate.
        -- intros [(pre & post & E & Hs & Hp)|(_ & H)].
           ++ exfalso. assert (H : filter SC ms <> []).
              { apply (proj2 (last_filter SC ms s [])). exists pre, post. auto. }
              tauto.
           ++ apply (proj2 (last_filter survives ms s [])) in H as [_ H].
              rewrite E2 in H. rewrite H. reflexivity.
    + split.
      * intros H. injection H as Hl. left.
        apply (proj1 (last_filter SC ms s [])). rewrite E1. split; auto. discriminate.
      * intros [H|(Hall & _)].
        -- apply (proj2 (last_filter SC ms s [])) in H as [_ H].
           rewrite E1 in H. rewrite H. reflexivity.
        -- apply (proj2 (filter_nil_forallb SC ms)) in Hall. congruence.
  - intros t H. unfold extract_seller. rewrite H. reflexivity.
  - vm_compute. reflexivity.
  - vm_compute. reflexivity.
Qed.

(** ** The items section *)

Lemma find_first_Some f l i : find_first f l = Some i <-> first_at f l i.
Proof.
  unfold first_at. revert i; induction l as [|y l IH]; intros i; simpl.
  - split; [discriminate|]. intros [(x & E & _) _]. destruct i; discriminate.
  - destruct (f y) eqn:Fy.
    + split.
      * intros H; inversion H; subst. split; [exists y; auto|]. intros k x Hk; lia.
      * intros [(x & E & Fx) Hb]. destruct i as [|i]; [reflexivity|].
        exfalso. specialize (Hb 0 y ltac:(lia) eq_refl). congruence.
    + destruct (find_first f l) as [j|] eqn:E; simpl.
      * split.
        -- intros H; inversion H; subst.
           destruct (proj1 (IH j) eq_refl) as [Hx Hb]. split; [exact Hx|].
           intros [|k] x Hk Ek; simpl in Ek; [congruence|]. apply (Hb k); auto; lia.
        -- intros [(x & Ex & Fx) Hb]. destruct i as [|i]; simpl in Ex; [congruence|].
           assert (H : Some j = Some i).
           { apply (proj2 (IH i)). split; [exists x; auto|].
             intros k z Hk Ez. apply (Hb (S k)); auto; lia. }
           inversion H. reflexivity.
      * split; [discriminate|].
        intros [(x & Ex & Fx) Hb]. destruct i as [|i]; simpl in Ex; [congruence|].
        assert (H : None = Some i).
        { apply (proj2 (IH i)). split; [exists x; auto|].
          intros k z Hk Ez. apply (Hb (S k)); auto; lia. }
        discriminate.
Qed.

Lemma find_first_None f l : find_first f l = None <-> forall x, In x l -> f x = false.
Proof.
  induction l as [|y l IH]; simpl.
  - split; auto. contradiction.
  - destruct (f y) eqn:Fy.
    + split; [discriminate|]. intros H. rewrite (H y (or_introl eq_refl)) in Fy. discriminate.
    + destruct (find_first f l) eqn:E; simpl.
      * split; [discriminate|]. intros H.
        assert (H' : Some n = None) by (apply IH; auto). discriminate.
      * split; auto. intros _ x [<-|Hx]; auto. apply IH; auto.
Qed.

Lemma header_start lines s :
  header_at lines s ->
  match find_first is_header lines with
  | Some i => Some i
  | None => find_first is_header_fallback lines
  end = Some s.
Proof.
  intros [H|(Hn & H)].
  - apply find_first_Some in H. rewrite H. reflexivity.
  - apply find_first_None in Hn. apply find_first_Some in H. rewrite Hn, H. reflexivity.
Qed.

(** C6 (confirmed).  On the lines of the text ([text.split('\n')]), the
    items-section extractor returns the lines strictly between the header
    line and the first footer line after it (both found), all lines after
    the header when no footer follows it, and the text itself when no line
    is a header, by the primary or by the fallback rule. *)
Theorem items_section_spec t :
  let lines := split_char 10 t in
  (forall s e, header_at lines s -> footer_at lines s e ->
     extract_items_section t = join nl (firstn (e - S s) (skipn (S s) lines))) /\
  (forall s, header_at lines s ->
     (forall k x, s < k -> nth_error lines k = Some x -> is_footer x = false) ->
     extract_items_section t = join nl (skipn (S s) lines)) /\
  ((forall x, In x lines -> is_header x = false /\ is_header_fallback x = false) ->
     extract_items_section t = t).
Proof.
  intros lines. unfold extract_items_section. fold lines.
  split; [|split].
  - intros s e Hh (Hlt & (x & Ex & Fx) & Hb). rewrite (header_start _ _ Hh).
    assert (Hf : find_first is_footer (skipn (S s) lines) = Some (e - S s)).
    { apply find_first_Some. split.
      - exists x. rewrite nth_error_skipn. replace (S s + (e - S s)) with e by lia. auto.
      - intros k z Hk Ez. rewrite nth_error_skipn in Ez. apply (Hb (S s + k)); auto; lia. }
    rewrite Hf. reflexivity.
  - intros s Hh Hb. rewrite (header_start _ _ Hh).
    assert (Hf : find_first is_footer (skipn (S s) lines) = None).
    { apply find_first_None. intros x Hx. apply In_nth_error in Hx as (k & Ek).
      rewrite nth_error_skipn in Ek. apply (Hb (S s + k)); auto; lia. }
    rewrite Hf. reflexivity.
  - intros H.
    assert (H1 : find_first is_header lines = None)
      by (apply find_first_None; intros x Hx; apply H; auto).
    assert (H2 : find_first is_header_fallback lines = None)
      by (apply find_first_None; intros x Hx; apply H; auto).
    rewrite H1, H2. reflexivity.
Qed.

(** ** The last group of a pattern *)

(** A match of [q ++ p] consumes a word of [q]'s atoms, then matches [p]. *)
Lemma mtch_marks_app q p s st st' :
  mtch (q ++ p) s st = Some st' ->
  exists w s2 st2, s = w ++ s2 /\ sem (filter is_atom q) w /\
    pos st2 = pos st + length w /\ mtch p s2 st2 = Some st'.
Proof.
  revert s st; induction q as [|it q IH]; intros s st H.
  - exists [], s, st. repeat split; auto. constructor.
  - destruct it as [cls lo hi g|n|n]; simpl in H |- *.
    + apply first_some_Some in H as (k & Hk & Hm).
      apply counts_In in Hk as (Hlo & Hrun & Hhi).
      destruct (IH _ _ Hm) as (w & s2 & st2 & Hs & Hsem & Hpos & Hp).
      assert (Hlen : length (firstn k s) = k).
      { apply firstn_length_le. pose proof (run_len_le cls hi s); lia. }
      exists (firstn k s ++ w), s2, st2.
      split; [rewrite <- app_assoc, <- Hs, firstn_skipn; reflexivity|].
      split; [|split; [rewrite Hpos, length_app, Hlen; unfold advance; simpl; lia|exact Hp]].
      apply sem_atom; try assumption.
      * rewrite Hlen; exact Hlo.
      * intros h E; specialize (Hhi h E); lia.
      * eapply run_len_forall; eauto.
    + destruct (IH _ _ H) as (w & s2 & st2 & Hs & Hsem & Hpos & Hp).
      exists w, s2, st2. simpl in Hpos. auto.
    + destruct (lookup_nat n (opens st)); [|discriminate].
      destruct (IH _ _ H) as (w & s2 & st2 & Hs & Hsem & Hpos & Hp).
      exists w, s2, st2. simpl in Hpos. auto.
Qed.

Lemma mtch_last_group n cls s st st' :
  mtch [Open n; plus cls; Close n] s st = Some st' ->
  exists a s3, s = a ++ s3 /\ a <> [] /\ forallb cls a = true /\
    caps st' = (n, (pos st, pos st + length a)) :: caps st.
Proof.
  cbn [mtch plus]. intros H.
  apply first_some_Some in H as (k & Hk & Hm).
  pose proof Hk as Hk'. apply counts_In in Hk' as (Hlo & Hrun & _).
  simpl in Hm. rewrite Nat.eqb_refl in Hm. inversion Hm; subst st'. clear Hm.
  assert (Hlen : length (firstn k s) = k).
  { apply firstn_length_le. pose proof (run_len_le cls None s); lia. }
  exists (firstn k s), (skipn k s). split; [symmetry; apply firstn_skipn|].
  split; [intros E; rewrite E in Hlen; simpl in Hlen; lia|].
  split; [eapply run_len_forall; eauto|].
  simpl. rewrite Hlen. reflexivity.
Qed.

(** A match at [j] of a pattern ending in the group [(c+)]: the group and
    the group closed last are the run it spans. *)
Lemma mtch_tail_group pre n cls t j m :
  mtch (pre ++ [Open n; plus cls; Close n]) (skipn j t) (init j) = Some m ->
  exists w a s3, skipn j t = w ++ a ++ s3 /\ sem (filter is_atom pre) w /\
    a <> [] /\ forallb cls a = true /\ group t m n = Some a /\ group_last t m = Some a.
Proof.
  intros H. apply mtch_marks_app in H as (w & s2 & st2 & Hs & Hsem & Hpos & Hm).
  apply mtch_last_group in Hm as (a & s3 & -> & Hne & Hcls & Hcaps).
  simpl in Hpos.
  assert (Ha : substr t (j + length w) (j + length w + length a) = a)
    by (apply substr_mid with s3; exact Hs).
  exists w, a, s3. repeat split; auto.
  - unfold group. rewrite Hcaps. simpl. rewrite Nat.eqb_refl, Hpos, Ha. reflexivity.
  - unfold group_last. rewrite Hcaps, Hpos, Ha. reflexivity.
Qed.

Lemma search_tail_group pre n cls t j m :
  search (pre ++ [Open n; plus cls; Close n]) t = Some (j, m) ->
  exists w a s3, skipn j t = w ++ a ++ s3 /\ sem (filter is_atom pre) w /\
    a <> [] /\ forallb cls a = true /\ group t m n = Some a /\ group_last t m = Some a /\
    mtch (pre ++ [Open n; plus cls; Close n]) (skipn j t) (init j) = Some m /\
    (forall k, k < j -> mtch (pre ++ [Open n; plus cls; Close n]) (skipn k t) (init k) = None).
Proof.
  intros H. apply search_at_Some in H as (_ & _ & Hm & Hb).
  rewrite Nat.sub_0_r in Hm.
  destruct (mtch_tail_group _ _ _ _ _ _ Hm) as (w & a & s3 & H1 & H2 & H3 & H4 & H5 & H6).
  exists w, a, s3. repeat split; auto.
  intros k Hk. specialize (Hb k ltac:(lia)). rewrite Nat.sub_0_r in Hb. exact Hb.
Qed.

(** ** The amount tiers *)

Lemma tier_found_of pre n t a :
  (exists j m, search (pre ++ [Open n; plus digit_or_dot; Close n]) t = Some (j, m) /\
     (group t m n = Some a \/ group_last t m = Some a)) ->
  tier_found pre (pre ++ [Open n; plus digit_or_dot; Close n]) t a.
Proof.
  intros (j & m & Hs & Hg).
  destruct (search_tail_group _ _ _ _ _ _ Hs) as (w & a' & s3 & H1 & H2 & H3 & H4 & H5 & H6 & H7 & H8).
  assert (a' = a) as <- by (destruct Hg; congruence).
  exists j, w, s3. repeat split; auto. congruence.
Qed.

Lemma tier1_found t a : tier1 t = Some a -> tier_found amount_pre1 amount_pat1 t a.
Proof.
  unfold tier1. destruct (search amount_pat1 t) as [[j m]|] eqn:E; [|discriminate].
  intros H. apply (tier_found_of amount_pre1 2). exists j, m. auto.
Qed.

Lemma tier2_found t a : tier2 t = Some a -> tier_found amount_pre2 amount_pat2 t a.
Proof.
  unfold tier2. destruct (search amount_pat2 t) as [[j m]|] eqn:E; [|discriminate].
  intros H. apply (tier_found_of amount_pre2 1). exists j, m. auto.
Qed.

Lemma tier3_found t a : tier3 t = Some a -> tier_found amount_pre3 amount_pat3 t a.
Proof.
  unfold tier3. destruct (search amount_pat3 t) as [[j m]|] eqn:E; [|discriminate].
  intros H. apply (tier_found_of amount_pre3 1). exists j, m. auto.
Qed.

Lemma tier_found_truthy pre p t a : tier_found pre p t a -> truthy (Some a) = true.
Proof. intros (_ & _ & _ & _ & _ & Ha & _). destruct a; [congruence|reflexivity]. Qed.

Lemma extract_amount_eq ft fp :
  extract_amount ft fp =
  match tier1 ft with
  | Some a => Some a
  | None => match tier2 fp with Some a => Some a | None => tier3 fp end
  end.
Proof.
  unfold extract_amount, amount_tier at 3 2 1. simpl truthy. cbv iota beta.
  change (match search amount_pat1 ft with Some (_, m) => group_last ft m | None => None end)
    with (tier1 ft).
  change (match search amount_pat2 fp with Some (_, m) => group fp m 1 | None => ?x end)
    with (match search amount_pat2 fp with Some (_, m) => group fp m 1 | None => x end).
  destruct (tier1 ft) as [a|] eqn:E1.
  - pose proof (tier_found_truthy _ _ _ _ (tier1_found _ _ E1)) as T.
    destruct a as [|c r]; [discriminate T|reflexivity].
  - simpl truthy. cbv iota beta.
    change (match search amount_pat2 fp with Some (_, m) => group fp m 1 | None => None end)
      with (tier2 fp).
    destruct (tier2 fp) as [b|] eqn:E2.
    + pose proof (tier_found_truthy _ _ _ _ (tier2_found _ _ E2)) as T.
      destruct b as [|c r]; [discriminate T|reflexivity].
    + reflexivity.
Qed.

(** C1 (corrected).  The amount is the first tier's result that exists:
    the pattern-1 search over the full text, then patterns 2 and 3 over the
    first-page text.  Each tier uses its leftmost match and returns the raw
    run of digits and dots captured by its last group; the text before the
    run at the match start is a word of the tier's atoms, whose label
    classes [[价\s]+] and the like also admit runs of white space alone. *)
Theorem amount_tiers_first_match ft fp :
  extract_amount ft fp =
  match tier1 ft with
  | Some a => Some a
  | None => match tier2 fp with Some a => Some a | None => tier3 fp end
  end /\
  (forall a, tier1 ft = Some a -> tier_found amount_pre1 amount_pat1 ft a) /\
  (forall a, tier2 fp = Some a -> tier_found amount_pre2 amount_pat2 fp a) /\
  (forall a, tier3 fp = Some a -> tier_found amount_pre3 amount_pat3 fp a).
Proof.
  split; [apply extract_amount_eq|].
  split; [apply tier1_found|]. split; [apply tier2_found|apply tier3_found].
Qed.

(** C1: a one-page text of white space and a number, with neither
    [价税合计] nor [小写], already yields an amount in tier 1: the label
    classes are matched by white space alone. *)
Lemma amount_tier1_counterexample :
  has "价税合计" (u "    " ++ nl ++ u "  1") = false /\
  has "小写" (u "    " ++ nl ++ u "  1") = false /\
  tier1 (u "    " ++ nl ++ u "  1" ++ nl) = Some (u "1") /\
  extract_amount (u "    " ++ nl ++ u "  1" ++ nl) (u "    " ++ nl ++ u "  1") = Some (u "1").
Proof. repeat split; vm_compute; reflexivity. Qed.

(** ** The extraction against the PDF library *)

Section Library.

Context {Doc Page : Type}.
Variable pdf_open : text -> Exc Doc.
Variable pdf_pages : Doc -> list Page.
Variable extract_text : Page -> Exc (option text).
Variable pdf_close : Doc -> Exc unit.

Lemma with_pdf_Ok {A : Type} path (body : Doc -> Exc A) r :
  with_pdf pdf_open pdf_close path body = Ok r ->
  exists d, pdf_open path = Ok d /\ body d = Ok r.
Proof.
  unfold with_pdf. destruct (pdf_open path) as [d|e]; simpl; [|discriminate].
  destruct (body d) as [r'|e] eqn:B; [|destruct (pdf_close d); discriminate].
  destruct (pdf_close d); simpl; [|discriminate]. intros H; inversion H; subst; eauto.
Qed.

Lemma with_body_Ok d fl :
  with_body pdf_pages extract_text d = Ok fl ->
  fl = no_fields \/ exists fp ft, fp <> [] /\ fl = extract_from_texts fp ft.
Proof.
  unfold with_body. destruct (nth_exc (pdf_pages d) 0) as [p|e]; simpl; [|discriminate].
  destruct (extract_text p) as [o|e]; simpl; [|discriminate].
  destruct (collect_text extract_text (pdf_pages d) []) as [ft|e]; simpl; [|discriminate].
  destruct o as [[|c r]|]; intros H; inversion H; subst; auto.
  right. exists (c :: r), ft. split; [discriminate|reflexivity].
Qed.

Lemma extract_invoice_data_cases path :
  exists lg fl, extract_invoice_data pdf_open pdf_pages extract_text pdf_close path = Ok (lg, fl) /\
    (fl = no_fields \/ exists fp ft, fp <> [] /\ fl = extract_from_texts fp ft).
Proof.
  unfold extract_invoice_data.
  destruct (with_pdf pdf_open pdf_close path (with_body pdf_pages extract_text)) as [r|e] eqn:E.
  - exists [], r. split; [reflexivity|].
    destruct (with_pdf_Ok _ _ _ E) as (d & _ & B). exact (with_body_Ok _ _ B).
  - exists [LExtractError path e], no_fields. auto.
Qed.

Lemma collect_text_raise ps acc p e :
  In p ps -> extract_text p = Raise e ->
  exists e', collect_text extract_text ps acc = Raise e'.
Proof.
  revert acc; induction ps as [|q ps IH]; intros acc Hin He; [destruct Hin|].
  simpl. destruct Hin as [<-|Hin].
  - rewrite He. simpl. eauto.
  - destruct (extract_text q); simpl; eauto.
Qed.

Lemma with_pdf_Raise {A : Type} path (body : Doc -> Exc A) d e :
  pdf_open path = Ok d -> body d = Raise e ->
  exists e', with_pdf pdf_open pdf_close path body = Raise e'.
Proof.
  intros Ho Hb. unfold with_pdf. rewrite Ho. simpl. rewrite Hb.
  destruct (pdf_close d); eauto.
Qed.

End Library.

(** ** One file of the loop *)

Section Loop.

Context {Doc Page : Type}.
Variable pdf_open : text -> Exc Doc.
Variable pdf_pages : Doc -> list Page.
Variable extract_text : Page -> Exc (option text).
Variable pdf_close : Doc -> Exc unit.
Variable chat_create : text -> text -> text -> Exc response.
Variable copy2 : text -> text -> Exc unit.

Lemma process_file_result a b f lg fl :
  extract_invoice_data pdf_open pdf_pages extract_text pdf_close (path f) = Ok (lg, fl) ->
  exists b', process_file pdf_open pdf_pages extract_text pdf_close chat_create copy2 a b f = Ok b' /\
  if truthy (f_date fl) && truthy (f_amount fl) then
    let nm := build_filename (opt_text (f_date fl))
                (middle_or_unknown (if truthy (ai_summary chat_create a fl)
                                    then ai_summary chat_create a fl else f_seller fl))
                (opt_text (f_amount fl)) in
    match copy2 (path f) nm with
    | Ok _ => count b' = S (count b) /\ written b' = written b ++ [(nm, path f)]
    | Raise e => count b' = count b /\ written b' = written b /\ In (LCopyFailed e) (out b')
    end
  else count b' = count b /\ written b' = written b /\
       last (out b') (LDone 0) = LFailedExtract (name f) (f_date fl) (f_seller fl) (f_amount fl).
Proof.
  intros E. unfold process_file, ai_summary. rewrite E. cbn [bind].
  destruct (f_date fl) as [[|d0 dr]|] eqn:Hd, (f_amount fl) as [[|a0 ar]|] eqn:Ha;
    cbn [truthy andb opt_text];
    try (eexists; split; [reflexivity|]; cbn [count written out];
         split; [reflexivity|]; split; [reflexivity|]; apply last_last).
  destruct (api_key a) as [[|k0 kr]|]; destruct (f_full_text fl) as [[|t0 tr]|];
    cbn -[build_filename extract_items_section get_invoice_summary middle_or_unknown];
    try (destruct (get_invoice_summary chat_create (extract_items_section (t0 :: tr))
           (k0 :: kr) (base_url a)) as [alog [[|s0 sr]|]];
         cbn -[build_filename extract_items_section get_invoice_summary middle_or_unknown]);
    (destruct (copy2 (path f) _) eqn:Ec; eexists; (split; [reflexivity|]);
     cbn [count written out]; repeat split; rewrite ?in_app_iff; simpl; auto).
Qed.

Lemma process_file_Ok a b f :
  exists b', process_file pdf_open pdf_pages extract_text pdf_close chat_create copy2 a b f = Ok b'.
Proof.
  destruct (extract_invoice_data_cases pdf_open pdf_pages extract_text pdf_close (path f))
    as (lg & fl & E & _).
  destruct (process_file_result a b f lg fl E) as (b' & H & _). eauto.
Qed.

Lemma process_file_no_fields a b f lg :
  extract_invoice_data pdf_open pdf_pages extract_text pdf_close (path f) = Ok (lg, no_fields) ->
  process_file pdf_open pdf_pages extract_text pdf_close chat_create copy2 a b f =
  Ok (Batch (count b) (written b)
        ((out b ++ (if verbose a then [LProcessing (name f)] else []) ++ lg) ++
         [LFailedExtract (name f) None None None])).
Proof. intros E. unfold process_file. rewrite E. reflexivity. Qed.

Lemma with_body_falsy d p o fl :
  nth_error (pdf_pages d) 0 = Some p -> extract_text p = Ok o -> truthy o = false ->
  with_body pdf_pages extract_text d = Ok fl -> fl = no_fields.
Proof.
  intros Hp Ho Ht. unfold with_body, nth_exc. rewrite Hp. simpl. rewrite Ho. simpl.
  destruct (collect_text extract_text (pdf_pages d) []); simpl; [|discriminate].
  destruct o as [[|c r]|]; try discriminate; intros H; inversion H; reflexivity.
Qed.

(** C7 (confirmed).  [extract_invoice_data] never raises.  When opening
    the file raises, it returns the all-absent result and logs the path and
    the exception; when extracting the text of some page raises, or the
    document has no page, it returns the all-absent result with a log line
    for the path; when the first page has no text (or an empty one), the
    result is all-absent as well.  The loop goes on with the next file: a
    file with the all-absent result adds the diagnostic line
    [Failed to extract all info ... Date: None, Seller: None, Amount: None]
    and changes neither the count nor the written files. *)
Theorem extraction_never_raises :
  (forall path, exists lg fl,
     extract_invoice_data pdf_open pdf_pages extract_text pdf_close path = Ok (lg, fl)) /\
  (forall path e, pdf_open path = Raise e ->
     extract_invoice_data pdf_open pdf_pages extract_text pdf_close path =
       Ok ([LExtractError path e], no_fields)) /\
  (forall path d p e, pdf_open path = Ok d -> In p (pdf_pages d) -> extract_text p = Raise e ->
     exists e', extract_invoice_data pdf_open pdf_pages extract_text pdf_close path =
       Ok ([LExtractError path e'], no_fields)) /\
  (forall path d, pdf_open path = Ok d -> pdf_pages d = [] ->
     exists e', extract_invoice_data pdf_open pdf_pages extract_text pdf_close path =
       Ok ([LExtractError path e'], no_fields)) /\
  (forall path d p o, pdf_open path = Ok d -> nth_error (pdf_pages d) 0 = Some p ->
     extract_text p = Ok o -> truthy o = false ->
     exists lg, extract_invoice_data pdf_open pdf_pages extract_text pdf_close path =
       Ok (lg, no_fields)) /\
  (forall a b f fs lg,
     extract_invoice_data pdf_open pdf_pages extract_text pdf_close (path f) = Ok (lg, no_fields) ->
     process_all pdf_open pdf_pages extract_text pdf_close chat_create copy2 a b (f :: fs) =
     process_all pdf_open pdf_pages extract_text pdf_close chat_create copy2 a
       (Batch (count b) (written b)
          ((out b ++ (if verbose a then [LProcessing (name f)] else []) ++ lg) ++
           [LFailedExtract (name f) None None None])) fs) /\
  (forall a b f fs, exists b',
     process_all pdf_open pdf_pages extract_text pdf_close chat_create copy2 a b (f :: fs) =
     process_all pdf_open pdf_pages extract_text pdf_close chat_create copy2 a b' fs).
Proof.
  split; [|split; [|split; [|split; [|split; [|split]]]]].
  - intros path.
    destruct (extract_invoice_data_cases pdf_open pdf_pages extract_text pdf_close path)
      as (lg & fl & E & _). eauto.
  - intros path e Ho. unfold extract_invoice_data, with_pdf. rewrite Ho. reflexivity.
  - intros path d p e Ho Hin He.
    assert (Hb : exists e', with_body pdf_pages extract_text d = Raise e').
    { unfold with_body, nth_exc.
      destruct (nth_error (pdf_pages d) 0) as [p0|]; simpl; [|eauto].
      destruct (extract_text p0) as [o|e0]; simpl; [|eauto].
      destruct (collect_text_raise extract_text (pdf_pages d) [] p e Hin He) as (e' & Hc).
      rewrite Hc. simpl. eauto. }
    destruct Hb as (e' & Hb).
    destruct (with_pdf_Raise pdf_open pdf_close path _ d e' Ho Hb) as (e'' & Hw).
    exists e''. unfold extract_invoice_data. rewrite Hw. reflexivity.
  - intros path d Ho Hps.
    assert (Hb : with_body pdf_pages extract_text d = Raise (Exn (u "list index out of range"))).
    { unfold with_body, nth_exc. rewrite Hps. reflexivity. }
    destruct (with_pdf_Raise pdf_open pdf_close path _ d _ Ho Hb) as (e'' & Hw).
    exists e''. unfold extract_invoice_data. rewrite Hw. reflexivity.
  - intros path d p o Ho Hp He Ht. unfold extract_invoice_data.
    destruct (with_pdf pdf_open pdf_close path (with_body pdf_pages extract_text)) as [r|e] eqn:W.
    + destruct (with_pdf_Ok _ _ _ _ _ W) as (d' & Ho' & B).
      rewrite Ho in Ho'. inversion Ho'; subst d'.
      rewrite (with_body_falsy _ _ _ _ Hp He Ht B). eauto.
    + eauto.
  - intros a b f fs lg E. simpl. rewrite (process_file_no_fields _ _ _ _ E). reflexivity.
  - intros a b f fs. destruct (process_file_Ok a b f) as (b' & H).
    exists b'. simpl. rewrite H. reflexivity.
Qed.

(** C4 (corrected).  For every file, with [lg] and [fl] the log and fields
    of its extraction: when the date and the amount are both non-empty, a
    copy named [build_filename date middle amount] is attempted, where the
    middle part is the AI summary if non-empty, else the seller if
    non-empty, else [Unknown] (through [middle_or_unknown]); the count goes
    up by one and the file is recorded when the copy succeeds, and when it
    raises the failure is logged and nothing is written.  Otherwise nothing
    is written either, and the last line printed is the diagnostic with the
    date, seller and amount values. *)
Theorem output_iff_date_amount_copied a b f lg fl :
  extract_invoice_data pdf_open pdf_pages extract_text pdf_close (path f) = Ok (lg, fl) ->
  (middle_or_unknown None = u "Unknown" /\ middle_or_unknown (Some []) = u "Unknown") /\
  exists b', process_file pdf_open pdf_pages extract_text pdf_close chat_create copy2 a b f = Ok b' /\
  if truthy (f_date fl) && truthy (f_amount fl) then
    let nm := build_filename (opt_text (f_date fl))
                (middle_or_unknown (if truthy (ai_summary chat_create a fl)
                                    then ai_summary chat_create a fl else f_seller fl))
                (opt_text (f_amount fl)) in
    match copy2 (path f) nm with
    | Ok _ => count b' = S (count b) /\ written b' = written b ++ [(nm, path f)]
    | Raise e => count b' = count b /\ written b' = written b /\ In (LCopyFailed e) (out b')
    end
  else count b' = count b /\ written b' = written b /\
       last (out b') (LDone 0) = LFailedExtract (name f) (f_date fl) (f_seller fl) (f_amount fl).
Proof.
  intros E. split; [split; reflexivity|]. exact (process_file_result a b f lg fl E).
Qed.

End Loop.

(** C4: the copy succeeds on the sample invoice, and one file is written. *)
Lemma output_iff_date_amount_copied_witness :
  exists b',
    process_file (fun _ : text => Ok tt) (fun _ : unit => [tt])
      (fun _ : unit => Ok (Some sample_page)) (fun _ : unit => Ok tt)
      (fun _ _ _ => Ok NoChoices) (fun _ _ => Ok tt)
      (Args false None (u "https://api.openai.com/v1")) (Batch 0 [] [])
      (PdfFile (u "in/a.pdf") (u "a.pdf")) = Ok b' /\
    count b' = 1 /\ written b' = [(u "2024.03.15-YY商店-99.00.pdf", u "in/a.pdf")].
Proof.
  destruct (output_iff_date_amount_copied (fun _ : text => Ok tt) (fun _ : unit => [tt])
      (fun _ : unit => Ok (Some sample_page)) (fun _ : unit => Ok tt)
      (fun _ _ _ => Ok NoChoices) (fun _ _ => Ok tt)
      (Args false None (u "https://api.openai.com/v1")) (Batch 0 [] [])
      (PdfFile (u "in/a.pdf") (u "a.pdf")) [] (extract_from_texts sample_page (sample_page ++ nl)))
    as (_ & b' & Hp & Hc); [vm_compute; reflexivity|].
  exists b'. split; [exact Hp|].
  vm_compute in Hc. exact Hc.
Defined.

(** C4: date and amount are found but the copy raises; the file is not
    written, only the failure is printed. *)
Lemma output_copy_failure_counterexample :
  f_date (extract_from_texts sample_page (sample_page ++ nl)) = Some (u "2024年03月15日") /\
  f_amount (extract_from_texts sample_page (sample_page ++ nl)) = Some (u "99.00") /\
  process_file (fun _ : text => Ok tt) (fun _ : unit => [tt])
    (fun _ : unit => Ok (Some sample_page)) (fun _ : unit => Ok tt)
    (fun _ _ _ => Ok NoChoices) (fun _ _ => Raise (Exn (u "No space left on device")))
    (Args false None (u "https://api.openai.com/v1")) (Batch 0 [] [])
    (PdfFile (u "in/a.pdf") (u "a.pdf")) =
  Ok (Batch 0 [] [LCopyFailed (Exn (u "No space left on device"))]).
Proof. repeat split; vm_compute; reflexivity. Qed.

(** * The characters of the output file names *)

(** The characters [name_safe] refuses. *)
Lemma name_safe_eq c :
  name_safe c = negb (existsb (Z.eqb c) [60; 62; 58; 34; 47; 92; 124; 63; 42; 10; 13]%Z).
Proof.
  unfold name_safe, summary_forbidden, filename_forbidden.
  change [60; 62; 58; 34; 47; 92; 124; 63; 42; 10; 13]%Z
    with ([60; 62; 58; 34; 47; 92; 124; 63; 42] ++ [10; 13])%Z.
  rewrite existsb_app. cbn [existsb].
  destruct (c =? 10)%Z, (c =? 13)%Z; rewrite ?orb_true_r, ?orb_true_l, ?orb_false_r;
    reflexivity.
Qed.

(** A character class that contains none of the refused characters. *)
Lemma safe_of_cls (cls : Z -> bool) c :
  forallb (fun x => negb (cls x)) [60; 62; 58; 34; 47; 92; 124; 63; 42; 10; 13]%Z = true ->
  cls c = true -> name_safe c = true.
Proof.
  intros H Hc. rewrite name_safe_eq.
  destruct (existsb (Z.eqb c) _) eqn:E; [|reflexivity].
  apply existsb_exists in E as (x & Hx & Hcx). apply Z.eqb_eq in Hcx. subst x.
  rewrite forallb_forall in H. specialize (H c Hx). rewrite Hc in H. discriminate.
Qed.

Ltac safe_by cls := apply (safe_of_cls cls); [vm_compute; reflexivity | assumption].

Lemma forallb_firstn {A : Type} (f : A -> bool) n l :
  forallb f l = true -> forallb f (firstn n l) = true.
Proof.
  rewrite <- (firstn_skipn n l) at 1. rewrite forallb_app.
  intros H; apply andb_prop in H as [H _]; exact H.
Qed.

Lemma forallb_skipn {A : Type} (f : A -> bool) n l :
  forallb f l = true -> forallb f (skipn n l) = true.
Proof.
  rewrite <- (firstn_skipn n l) at 1. rewrite forallb_app.
  intros H; apply andb_prop in H as [_ H]; exact H.
Qed.

Lemma date_shape_safe d : is_date_shape d = true -> forallb name_safe d = true.
Proof.
  intros H. apply forallb_forall. intros c Hc.
  destruct (date_shape_chars _ _ H Hc) as [Hd| [ -> | [ -> | -> ]]];
    [safe_by is_digit | vm_compute; reflexivity ..].
Qed.

Lemma dotted_safe d : forallb name_safe d = true -> forallb name_safe (dotted d) = true.
Proof.
  intros H. unfold dotted. rewrite !forallb_app.
  rewrite (forallb_firstn _ _ _ H), (forallb_firstn _ _ _ (forallb_skipn _ 5 _ H)),
    (forallb_firstn _ _ _ (forallb_skipn _ 8 _ H)).
  vm_compute; reflexivity.
Qed.

(** The sanitizer of the AI summary leaves only safe characters. *)
Lemma clean_summary_safe content : forallb name_safe (clean_summary content) = true.
Proof.
  unfold clean_summary, remove_chars. apply forallb_forall. intros c Hc.
  apply filter_In in Hc as [_ Hc]. exact Hc.
Qed.

Lemma last_In_nonnil {A : Type} (l : list A) d : l <> [] -> In (last l d) l.
Proof.
  intros H. rewrite (app_removelast_last d H) at 2. apply in_or_app. right; left; reflexivity.
Qed.

Lemma select_seller_In ms s : select_seller ms = Some s -> In s ms.
Proof.
  rewrite select_seller_eq.
  destruct (filter (fun m => survives m && companyish m) ms) as [|x r] eqn:E1.
  - destruct (filter survives ms) as [|y r'] eqn:E2; [discriminate|].
    intros H; injection H as <-.
    assert (Hin : In (last (y :: r') []) (filter survives ms))
      by (rewrite E2; apply last_In_nonnil; discriminate).
    apply filter_In in Hin as [Hin _]. exact Hin.
  - intros H; injection H as <-.
    assert (Hin : In (last (x :: r) []) (filter (fun m => survives m && companyish m) ms))
      by (rewrite E1; apply last_In_nonnil; discriminate).
    apply filter_In in Hin as [Hin _]. exact Hin.
Qed.

(** Each element of [findall] is the first group of a match at some index. *)
Lemma findall_from_In fuel p t i x :
  In x (findall_from fuel p t i) ->
  x = [] \/ exists j m, mtch p (skipn j t) (init j) = Some m /\ group t m 1 = Some x.
Proof.
  revert i. induction fuel as [|fuel IH]; intros i; simpl; [tauto|].
  destruct (search_at p (skipn i t) i) as [[j st]|] eqn:E; [|simpl; tauto].
  intros [Hx|Hx]; [|exact (IH _ Hx)].
  destruct (search_at_Some _ _ _ _ _ E) as (Hij & _ & Hm & _).
  rewrite skipn_skipn in Hm. replace (j - i + i) with j in Hm by lia.
  destruct (group t st 1) as [g|] eqn:G; [|left; symmetry; exact Hx].
  right. exists j, st. subst g. split; assumption.
Qed.

Lemma findall_seller_safe t x :
  In x (findall seller_pat t) -> forallb name_safe x = true.
Proof.
  unfold findall. intros Hx.
  destruct (findall_from_In _ _ _ _ _ Hx) as [->|(j & m & Hm & Hg)]; [reflexivity|].
  change seller_pat with ([plus (lbl "名"); plus (lbl "称"); star colon; star is_space]
    ++ [Open 1; plus name_cls; Close 1]) in Hm.
  destruct (mtch_tail_group _ _ _ _ _ _ Hm) as (w & a & s3 & _ & _ & _ & Ha & Hga & _).
  rewrite Hg in Hga. injection Hga as <-.
  apply (forallb_weaken name_cls); [|exact Ha].
  intros c Hc. safe_by name_cls.
Qed.

Lemma seller_fallback_cases sel t s :
  seller_fallback sel t = Some s -> sel = Some s \/ forallb name_safe s = true.
Proof.
  unfold seller_fallback.
  destruct (has "销售方" (remove_chars is_space t)); [|left; exact H].
  destruct (Nat.ltb 1 _); [|intros H; left; exact H].
  set (p := last (split_on (u "销售方") (remove_chars is_space t)) []).
  destruct (search seller_fallback_pat p) as [[j m]|] eqn:E; [|intros H; left; exact H].
  intros Hg. right.
  change seller_fallback_pat with ([lit "名"; lit "称"; opt colon]
    ++ [Open 1; plus cjk; Close 1]) in E.
  destruct (search_tail_group _ _ _ _ _ _ E) as (w & a & s3 & _ & _ & _ & Ha & Hga & _).
  rewrite Hg in Hga. injection Hga as <-.
  apply (forallb_weaken cjk); [|exact Ha].
  intros c Hc. safe_by cjk.
Qed.

Lemma extract_seller_safe t s : extract_seller t = Some s -> forallb name_safe s = true.
Proof.
  unfold extract_seller.
  destruct (select_seller (findall seller_pat t)) as [s0|] eqn:Es.
  - assert (H0 : forallb name_safe s0 = true)
      by exact (findall_seller_safe _ _ (select_seller_In _ _ Es)).
    destruct (truthy (Some s0)).
    + intros H; injection H as <-; exact H0.
    + intros H. destruct (seller_fallback_cases _ _ _ H) as [Hs|Hs]; [|exact Hs].
      injection Hs as <-; exact H0.
  - cbn [truthy]. intros H. destruct (seller_fallback_cases _ _ _ H) as [Hs|Hs];
      [discriminate|exact Hs].
Qed.

Lemma tier_found_safe pre p t a : tier_found pre p t a -> forallb name_safe a = true.
Proof.
  intros (_ & _ & _ & _ & _ & _ & Ha & _).
  apply (forallb_weaken digit_or_dot); [|exact Ha].
  intros c Hc. safe_by digit_or_dot.
Qed.

Lemma extract_amount_safe ft fp a : extract_amount ft fp = Some a -> forallb name_safe a = true.
Proof.
  rewrite extract_amount_eq.
  destruct (tier1 ft) as [a1|] eqn:E1.
  { intros H; injection H as <-. exact (tier_found_safe _ _ _ _ (tier1_found _ _ E1)). }
  destruct (tier2 fp) as [a2|] eqn:E2.
  { intros H; injection H as <-. exact (tier_found_safe _ _ _ _ (tier2_found _ _ E2)). }
  intros H. exact (tier_found_safe _ _ _ _ (tier3_found _ _ H)).
Qed.

Lemma ai_summary_safe chat_create a fl s :
  ai_summary chat_create a fl = Some s -> forallb name_safe s = true.
Proof.
  unfold ai_summary.
  destruct (api_key a) as [[|k0 kr]|]; try discriminate.
  destruct (f_full_text fl) as [[|t0 tr]|]; try discriminate.
  unfold get_invoice_summary.
  destruct (chat_create _ _ _) as [[|[|[c|] cs]]|[m]]; cbn; try discriminate;
    try (destruct (has _ m); discriminate).
  intros H; injection H as <-. apply clean_summary_safe.
Qed.

Lemma middle_safe o :
  (forall s, o = Some s -> forallb name_safe s = true) ->
  forallb name_safe (middle_or_unknown o) = true.
Proof.
  intros H. destruct o as [[|c r]|]; try (vm_compute; reflexivity).
  apply H; reflexivity.
Qed.

Lemma build_filename_safe d m a :
  forallb name_safe (format_date d) = true -> forallb name_safe m = true ->
  forallb name_safe a = true -> forallb name_safe (build_filename d m a) = true.
Proof.
  intros Hd Hm Ha. unfold build_filename, remove_chars.
  apply forallb_forall. intros c Hc. apply filter_In in Hc as [Hc _].
  assert (Hall : forallb name_safe
                   (format_date d ++ u "-" ++ m ++ u "-" ++ a ++ u ".pdf") = true).
  { rewrite !forallb_app, Hd, Hm, Ha. vm_compute; reflexivity. }
  rewrite forallb_forall in Hall. exact (Hall c Hc).
Qed.

Section Names.

Context {Doc Page : Type}.
Variable pdf_open : text -> Exc Doc.
Variable pdf_pages : Doc -> list Page.
Variable extract_text : Page -> Exc (option text).
Variable pdf_close : Doc -> Exc unit.
Variable chat_create : text -> text -> text -> Exc response.
Variable copy2 : text -> text -> Exc unit.

(** A name [process_file] adds to the written files has only safe
    characters. *)
Lemma process_file_names_safe a b f b' nm src :
  process_file pdf_open pdf_pages extract_text pdf_close chat_create copy2 a b f = Ok b' ->
  In (nm, src) (written b') -> In (nm, src) (written b) \/ forallb name_safe nm = true.
Proof.
  intros Hp Hin.
  destruct (extract_invoice_data_cases pdf_open pdf_pages extract_text pdf_close (path f))
    as (lg & fl & E & Hfl).
  destruct (process_file_result pdf_open pdf_pages extract_text pdf_close chat_create copy2
              a b f lg fl E) as (b'' & Hp' & Hr).
  rewrite Hp in Hp'. injection Hp' as <-.
  destruct (truthy (f_date fl) && truthy (f_amount fl)) eqn:T.
  - cbv zeta in Hr.
    destruct (copy2 _ _) as [_|e].
    + destruct Hr as [_ Hw]. rewrite Hw in Hin. apply in_app_iff in Hin as [Hin|Hin];
        [left; exact Hin|right].
      destruct Hin as [Hin|[]]. injection Hin as <- _.
      destruct Hfl as [->|(fp & ft & _ & ->)]; [discriminate T|].
      apply andb_prop in T as [Td Ta]. unfold extract_from_texts in *. cbn [f_date f_amount f_seller] in *.
      destruct (extract_date fp) as [d|] eqn:Ed; [|discriminate Td].
      destruct (extract_amount ft fp) as [am|] eqn:Ea; [|discriminate Ta].
      cbn [opt_text].
      destruct (extracted_date_always_reformatted _ _ Ed) as (Hd & _ & Hfd).
      apply build_filename_safe.
      * rewrite Hfd. apply dotted_safe, date_shape_safe, Hd.
      * apply middle_safe. intros s Hs.
        destruct (truthy (ai_summary chat_create a _)).
        -- exact (ai_summary_safe _ _ _ _ Hs).
        -- exact (extract_seller_safe _ _ Hs).
      * exact (extract_amount_safe _ _ _ Ea).
    + destruct Hr as (_ & Hw & _). rewrite Hw in Hin. left; exact Hin.
  - destruct Hr as (_ & Hw & _). rewrite Hw in Hin. left; exact Hin.
Qed.

(** Every name of the batch is one of the names it started with or safe. *)
Lemma process_all_names_safe a b fs b' nm src :
  process_all pdf_open pdf_pages extract_text pdf_close chat_create copy2 a b fs = Ok b' ->
  In (nm, src) (written b') -> In (nm, src) (written b) \/ forallb name_safe nm = true.
Proof.
  revert b. induction fs as [|f fs IH]; intros b; simpl.
  - intros H; injection H as <-. left; assumption.
  - destruct (process_file pdf_open pdf_pages extract_text pdf_close chat_create copy2 a b f)
      as [b1|e] eqn:E; simpl; [|discriminate].
    intros Hp Hin. destruct (IH _ Hp Hin) as [H1|H1]; [|right; exact H1].
    exact (process_file_names_safe _ _ _ _ _ _ E H1).
Qed.

Lemma main_loop_names_safe a fs b nm src :
  main_loop pdf_open pdf_pages extract_text pdf_close chat_create copy2 a fs = Ok b ->
  In (nm, src) (written b) -> forallb name_safe nm = true.
Proof.
  unfold main_loop.
  destruct (process_all pdf_open pdf_pages extract_text pdf_close chat_create copy2 a
              (Batch 0 [] []) fs) as [b1|e] eqn:E; simpl; [|discriminate].
  intros H; injection H as <-. cbn [written]. intros Hin.
  destruct (process_all_names_safe _ _ _ _ _ _ E Hin) as [[]|H]; exact H.
Qed.

End Names.

(** C5 (confirmed): the file-name builder removes, and does not replace, the
    nine characters < > : (double quote) / \ | ? * of the assembled name
    [{date}-{middle}-{amount}.pdf], keeping every other character in order;
    the AI summary's own sanitizer leaves none of the eleven characters (the
    nine, line feed and carriage return) whatever the reply; and so, whatever
    the PDF texts and the chat client's replies, every file name a run writes
    is free of all eleven. *)
Theorem filename_sanitized :
  (forall d m a c, In c (build_filename d m a) <->
     In c (format_date d ++ u "-" ++ m ++ u "-" ++ a ++ u ".pdf") /\
     filename_forbidden c = false) /\
  (forall d m1 m2 a c, filename_forbidden c = true ->
     build_filename d (m1 ++ c :: m2) a = build_filename d (m1 ++ m2) a) /\
  (forall content, forallb name_safe (clean_summary content) = true) /\
  (forall (Doc Page : Type) (po : text -> Exc Doc) (pp : Doc -> list Page)
          (et : Page -> Exc (option text)) (pc : Doc -> Exc unit)
          (chat : text -> text -> text -> Exc response) (cp : text -> text -> Exc unit)
          a fs b nm src,
     main_loop po pp et pc chat cp a fs = Ok b ->
     In (nm, src) (written b) -> forallb name_safe nm = true).
Proof.
  split; [|split; [|split]].
  - intros d m a c. unfold build_filename, remove_chars. rewrite filter_In.
    rewrite Bool.negb_true_iff. reflexivity.
  - intros d m1 m2 a c Hc. unfold build_filename, remove_chars.
    rewrite !filter_app. cbn [filter]. rewrite Hc. reflexivity.
  - exact clean_summary_safe.
  - intros Doc Page po pp et pc chat cp a fs b nm src.
    exact (main_loop_names_safe po pp et pc chat cp a fs b nm src).
Qed.

(** * Base URL normalisation *)

Lemma prefixb_app (l m : text) : prefixb l (l ++ m) = true.
Proof. induction l as [|x l IH]; simpl; [reflexivity|]. rewrite Z.eqb_refl, IH. reflexivity. Qed.

Lemma endswith_app (s v : text) : endswith (s ++ v) v = true.
Proof. unfold endswith. rewrite rev_app_distr. apply prefixb_app. Qed.

Lemma normalize_base_url_cases x :
  normalize_base_url x = x \/
  normalize_base_url x = rstrip_by (Z.eqb (ch "/")) x ++ u "/v1".
Proof.
  unfold normalize_base_url.
  destruct (_ && _ && _); [destruct (Nat.leb _ _)|]; auto.
Qed.

(** X1: normalising the base URL twice gives the same URL as normalising it once. *)
Theorem normalize_base_url_idempotent x :
  normalize_base_url (normalize_base_url x) = normalize_base_url x.
Proof.
  destruct (normalize_base_url_cases x) as [H|H]; rewrite H; [exact H|].
  unfold normalize_base_url at 1. rewrite endswith_app. cbn [negb].
  rewrite andb_false_r, andb_false_l. reflexivity.
Qed.

(** X2: a non-empty base URL with at most three slashes comes out ending in [/v1] or [/v1/]; a URL with more than three slashes is left unchanged. *)
Theorem normalize_base_url_root x :
  (x <> [] -> (count_char (ch "/") x <= 3)%nat ->
   endswith (normalize_base_url x) (u "/v1") = true \/
   endswith (normalize_base_url x) (u "/v1/") = true) /\
  ((3 < count_char (ch "/") x)%nat -> normalize_base_url x = x).
Proof.
  split.
  - intros Hx Hc. unfold normalize_base_url.
    destruct x as [|c x]; [contradiction|]. cbn [truthy andb].
    destruct (endswith (c :: x) (u "/v1")) eqn:E1; [left; exact E1|].
    destruct (endswith (c :: x) (u "/v1/")) eqn:E2; [right; exact E2|].
    cbn [negb andb]. apply Nat.leb_le in Hc. rewrite Hc. left. apply endswith_app.
  - intros Hc. unfold normalize_base_url.
    destruct (_ && _ && _); [|reflexivity].
    destruct (Nat.leb _ _) eqn:L; [apply Nat.leb_le in L; lia|reflexivity].
Qed.


(** * get_invoice_summary *)

(** X3: [get_invoice_summary] depends only on the first 2500 characters of the text, and it returns a summary exactly when it prints nothing. *)
Theorem get_invoice_summary_log chat t1 t2 key url :
  (firstn 2500 t1 = firstn 2500 t2 ->
   get_invoice_summary chat t1 key url = get_invoice_summary chat t2 key url) /\
  (fst (get_invoice_summary chat t1 key url) = [] <->
   snd (get_invoice_summary chat t1 key url) <> None).
Proof.
  split.
  - intros H. unfold get_invoice_summary. rewrite H. reflexivity.
  - unfold get_invoice_summary.
    destruct (chat _ _ _) as [[|[|[c|] cs]]|[m]]; cbn [fst snd];
      split; intros H; try discriminate; try (exfalso; apply H; reflexivity); reflexivity.
Qed.

(** * Subsequences *)

Lemma sublist_nil_l {A : Type} (l : list A) : sublist [] l.
Proof. induction l; constructor; auto. Qed.

Lemma sublist_refl {A : Type} (l : list A) : sublist l l.
Proof. induction l; [constructor|apply sublist_keep; assumption]. Qed.

Lemma sublist_trans {A : Type} (l1 l2 l3 : list A) :
  sublist l1 l2 -> sublist l2 l3 -> sublist l1 l3.
Proof.
  intros H12 H23. revert l1 H12.
  induction H23 as [|x l2 l3 H IH|x l2 l3 H IH]; intros l1 H12.
  - exact H12.
  - constructor. apply IH, H12.
  - inversion H12; subst.
    + apply sublist_skip. apply IH; assumption.
    + apply sublist_keep. apply IH; assumption.
Qed.

Lemma sublist_app {A : Type} (a b c d : list A) :
  sublist a b -> sublist c d -> sublist (a ++ c) (b ++ d).
Proof.
  intros H1 H2. induction H1; simpl;
    [exact H2|apply sublist_skip; exact IHsublist|apply sublist_keep; exact IHsublist].
Qed.

Lemma sublist_rev {A : Type} (a b : list A) : sublist a b -> sublist (rev a) (rev b).
Proof.
  induction 1; simpl.
  - constructor.
  - rewrite <- (app_nil_r (rev l1)). apply sublist_app; [assumption|].
    constructor; constructor.
  - apply sublist_app; [assumption|]. apply sublist_refl.
Qed.

Lemma sublist_length {A : Type} (a b : list A) : sublist a b -> length a <= length b.
Proof. induction 1; simpl; lia. Qed.

Lemma filter_sublist {A : Type} (f : A -> bool) l : sublist (filter f l) l.
Proof.
  induction l as [|x l IH]; simpl; [constructor|].
  destruct (f x); [apply sublist_keep|apply sublist_skip]; exact IH.
Qed.

Lemma skipn_sublist {A : Type} n (l : list A) : sublist (skipn n l) l.
Proof.
  revert l; induction n as [|n IH]; intros l; [apply sublist_refl|].
  destruct l as [|x l]; [constructor|]. simpl. constructor. apply IH.
Qed.

Lemma drop_while_sublist f l : sublist (drop_while f l) l.
Proof.
  induction l as [|x l IH]; simpl; [constructor|].
  destruct (f x); [constructor; exact IH|apply sublist_refl].
Qed.

Lemma strip_by_sublist f l : sublist (strip_by f l) l.
Proof.
  unfold strip_by, rstrip_by, lstrip_by.
  apply (sublist_trans _ (drop_while f l)); [|apply drop_while_sublist].
  rewrite <- (rev_involutive (drop_while f l)) at 2.
  apply sublist_rev, drop_while_sublist.
Qed.

Lemma strip_answer_prefix_sublist s : sublist (strip_answer_prefix s) s.
Proof.
  unfold strip_answer_prefix.
  destruct (first_some _ _) as [r|] eqn:E; [|apply sublist_refl].
  apply first_some_Some in E as (w & _ & Hw).
  destruct (prefix_ci w s); [|discriminate]. injection Hw as <-.
  apply (sublist_trans _ (skipn (length w) s)); [apply drop_while_sublist|apply skipn_sublist].
Qed.

(** * The summary clean-up only deletes characters *)
(** X4: the summary clean-up only deletes characters: its result is a subsequence of the reply, never longer. *)
Theorem clean_summary_subsequence content :
  sublist (clean_summary content) content /\ length (clean_summary content) <= length content.
Proof.
  assert (H : sublist (clean_summary content) content).
  { unfold clean_summary, remove_chars.
    eapply sublist_trans; [apply filter_sublist|].
    eapply sublist_trans; [apply strip_by_sublist|].
    eapply sublist_trans; [apply strip_answer_prefix_sublist|].
    apply strip_by_sublist. }
  split; [exact H|apply sublist_length, H].
Qed.

(** * Lines *)

Lemma split_char_nonnil c t : split_char c t <> [].
Proof.
  induction t as [|x t IH]; simpl; [discriminate|].
  destruct (x =? c)%Z; [discriminate|]. destruct (split_char c t); discriminate.
Qed.

Lemma join_cons sep l ls : ls <> [] -> join sep (l :: ls) = l ++ sep ++ join sep ls.
Proof. destruct ls; [contradiction|reflexivity]. Qed.

Lemma join_split c t : join [c] (split_char c t) = t.
Proof.
  induction t as [|x t IH]; [reflexivity|]. simpl.
  destruct (x =? c)%Z eqn:E.
  - apply Z.eqb_eq in E; subst x. rewrite join_cons by apply split_char_nonnil.
    simpl. rewrite IH. reflexivity.
  - destruct (split_char c t) as [|l ls] eqn:S; [exact (False_ind _ (split_char_nonnil c t S))|].
    destruct ls as [|l' ls].
    + simpl in *. rewrite IH. reflexivity.
    + rewrite join_cons by discriminate. rewrite join_cons in IH by discriminate.
      rewrite <- IH. reflexivity.
Qed.

Lemma join_app sep l1 l2 :
  l1 <> [] -> l2 <> [] -> join sep (l1 ++ l2) = join sep l1 ++ sep ++ join sep l2.
Proof.
  intros H1 H2. induction l1 as [|x l1 IH]; [contradiction|].
  destruct l1 as [|y l1].
  - simpl. apply join_cons, H2.
  - rewrite <- app_comm_cons, join_cons by (simpl; discriminate).
    rewrite IH by discriminate. rewrite (join_cons sep x (y :: l1)) by discriminate. rewrite !app_assoc. reflexivity.
Qed.

Lemma join_infix sep a m b : infix (join sep m) (join sep (a ++ m ++ b)).
Proof.
  destruct m as [|x m]; [exists [], (join sep (a ++ b)); reflexivity|].
  destruct a as [|y a]; destruct b as [|z b].
  - exists [], []. rewrite !app_nil_r. reflexivity.
  - exists [], (sep ++ join sep (z :: b)). rewrite !app_nil_l.
    rewrite join_app by discriminate. reflexivity.
  - exists (join sep (y :: a) ++ sep), []. rewrite !app_nil_r.
    rewrite join_app by discriminate. rewrite <- app_assoc. reflexivity.
  - exists (join sep (y :: a) ++ sep), (sep ++ join sep (z :: b)).
    rewrite join_app by (try discriminate; destruct m; discriminate).
    rewrite join_app by discriminate. rewrite <- !app_assoc. reflexivity.
Qed.

(** X5: the items section is a contiguous part of the full text, so it is never longer than the full text. *)
Theorem items_section_infix t :
  infix (extract_items_section t) t /\ length (extract_items_section t) <= length t.
Proof.
  assert (H : infix (extract_items_section t) t).
  { unfold extract_items_section.
    set (lines := split_char 10 t).
    assert (Ht : t = join [10%Z] lines) by (symmetry; apply join_split).
    destruct (match find_first is_header lines with Some i => Some i
              | None => find_first is_header_fallback lines end) as [s|].
    - rewrite Ht.
      destruct (find_first is_footer (skipn (S s) lines)) as [j|].
      + pose proof (join_infix [10%Z] (firstn (S s) lines) (firstn j (skipn (S s) lines))
                      (skipn j (skipn (S s) lines))) as J.
        rewrite !firstn_skipn in J. exact J.
      + pose proof (join_infix [10%Z] (firstn (S s) lines) (skipn (S s) lines) []) as J.
        rewrite app_nil_r, firstn_skipn in J. exact J.
    - exists [], []. rewrite app_nil_r. reflexivity. }
  split; [exact H|].
  destruct H as (p & s & Hps). rewrite Hps at 2. rewrite !length_app. lia.
Qed.

(** * The seller *)

Lemma findall_from_match fuel p t i x :
  In x (findall_from fuel p t i) ->
  exists j m, mtch p (skipn j t) (init j) = Some m /\
    (group t m 1 = Some x \/ (group t m 1 = None /\ x = [])).
Proof.
  revert i. induction fuel as [|fuel IH]; intros i; simpl; [tauto|].
  destruct (search_at p (skipn i t) i) as [[j st]|] eqn:E; [|simpl; tauto].
  intros [Hx|Hx]; [|exact (IH _ Hx)].
  destruct (search_at_Some _ _ _ _ _ E) as (Hij & _ & Hm & _).
  rewrite skipn_skipn in Hm. replace (j - i + i) with j in Hm by lia.
  exists j, st. split; [exact Hm|].
  destruct (group t st 1) as [g|]; [left; congruence|right; auto].
Qed.

Lemma findall_seller_nonempty t x :
  In x (findall seller_pat t) -> x <> [] /\ forallb name_cls x = true.
Proof.
  unfold findall. intros Hx.
  destruct (findall_from_match _ _ _ _ _ Hx) as (j & m & Hm & Hg).
  change seller_pat with ([plus (lbl "名"); plus (lbl "称"); star colon; star is_space]
    ++ [Open 1; plus name_cls; Close 1]) in Hm.
  destruct (mtch_tail_group _ _ _ _ _ _ Hm) as (w & a & s3 & _ & _ & Ha & Hc & Hga & _).
  rewrite Hga in Hg. destruct Hg as [Hg|[Hg _]]; [|discriminate].
  injection Hg as <-. auto.
Qed.

Lemma cjk_name_cls c : cjk c = true -> name_cls c = true.
Proof. unfold cjk, name_cls. intros H. rewrite H. reflexivity. Qed.

Lemma seller_fallback_found sel t s :
  seller_fallback sel t = Some s -> sel = Some s \/ (s <> [] /\ forallb cjk s = true).
Proof.
  unfold seller_fallback.
  destruct (has "销售方" (remove_chars is_space t)); [|left; exact H].
  destruct (Nat.ltb 1 _); [|intros H; left; exact H].
  set (p := last (split_on (u "销售方") (remove_chars is_space t)) []).
  destruct (search seller_fallback_pat p) as [[j m]|] eqn:E; [|intros H; left; exact H].
  intros Hg. right.
  change seller_fallback_pat with ([lit "名"; lit "称"; opt colon]
    ++ [Open 1; plus cjk; Close 1]) in E.
  destruct (search_tail_group _ _ _ _ _ _ E) as (w & a & s3 & _ & _ & Hne & Ha & Hga & _).
  rewrite Hg in Hga. injection Hga as <-. auto.
Qed.

(** X6: a seller name, when one is found, is non-empty and made only of CJK ideographs, ASCII letters, digits and brackets. *)
Theorem extract_seller_shape t s :
  extract_seller t = Some s -> s <> [] /\ forallb name_cls s = true.
Proof.
  unfold extract_seller.
  destruct (select_seller (findall seller_pat t)) as [s0|] eqn:Es.
  - assert (H0 : s0 <> [] /\ forallb name_cls s0 = true)
      by exact (findall_seller_nonempty _ _ (select_seller_In _ _ Es)).
    destruct (truthy (Some s0)).
    + intros H; injection H as <-; exact H0.
    + intros H. destruct (seller_fallback_found _ _ _ H) as [Hs|[Hne Hs]].
      * injection Hs as <-; exact H0.
      * split; [exact Hne|]. apply (forallb_weaken cjk); [exact cjk_name_cls|exact Hs].
  - cbn [truthy]. intros H. destruct (seller_fallback_found _ _ _ H) as [Hs|[Hne Hs]];
      [discriminate|].
    split; [exact Hne|]. apply (forallb_weaken cjk); [exact cjk_name_cls|exact Hs].
Qed.

(** * The page texts *)

Section PdfText.

Context {Doc Page : Type}.
Variable pdf_open : text -> Exc Doc.
Variable pdf_pages : Doc -> list Page.
Variable extract_text : Page -> Exc (option text).
Variable pdf_close : Doc -> Exc unit.

Lemma add_piece (acc : text) o :
  match o with Some (c :: r) => acc ++ (c :: r) ++ nl | _ => acc end = acc ++ page_piece o.
Proof. destruct o as [[|c r]|]; simpl; rewrite ?app_nil_r; reflexivity. Qed.

Lemma collect_text_Ok_iff ps acc ft :
  collect_text extract_text ps acc = Ok ft <->
  exists os, Forall2 (fun p o => extract_text p = Ok o) ps os /\
    ft = acc ++ concat (map page_piece os).
Proof.
  revert acc; induction ps as [|p ps IH]; intros acc; simpl.
  - split.
    + intros H; injection H as <-. exists []. split; [constructor|]. simpl.
      rewrite app_nil_r; reflexivity.
    + intros (os & H & ->). inversion H; subst. simpl. rewrite app_nil_r; reflexivity.
  - destruct (extract_text p) as [o|e] eqn:E; simpl.
    + rewrite add_piece, IH. split.
      * intros (os & H & ->). exists (o :: os). split; [constructor; assumption|].
        simpl. rewrite app_assoc. reflexivity.
      * intros (os & H & ->). inversion H as [|p' o' ps' os' Ho Hos]; subst.
        rewrite E in Ho. injection Ho as <-. exists os'. split; [exact Hos|].
        simpl. rewrite app_assoc. reflexivity.
    + split; [discriminate|]. intros (os & H & _). inversion H; subst. congruence.
Qed.

(** X7: when fields are extracted, the full text is the text of the non-empty first page followed by a newline, then the non-empty texts of the other pages, each followed by a newline, in page order. *)
Theorem extracted_full_text path lg fl :
  extract_invoice_data pdf_open pdf_pages extract_text pdf_close path = Ok (lg, fl) ->
  fl = no_fields \/
  exists d fp os, pdf_open path = Ok d /\
    Forall2 (fun p o => extract_text p = Ok o) (pdf_pages d) (Some fp :: os) /\
    fp <> [] /\ fl = extract_from_texts fp (fp ++ nl ++ concat (map page_piece os)).
Proof.
  unfold extract_invoice_data.
  destruct (with_pdf pdf_open pdf_close path (with_body pdf_pages extract_text)) as [r|e] eqn:W;
    intros H; injection H as <- <-; [|left; reflexivity].
  eapply with_pdf_Ok in W. destruct W as (d & Hd & Hb).
  unfold with_body, nth_exc in Hb.
  destruct (pdf_pages d) as [|p ps] eqn:Hps; [discriminate|]. simpl in Hb.
  destruct (extract_text p) as [o|e] eqn:Ep; simpl in Hb; [|discriminate].
  destruct o as [[|c r']|].
  - destruct (collect_text extract_text ps _); simpl in Hb; [|discriminate].
    injection Hb as <-. left; reflexivity.
  - destruct (collect_text extract_text ps _) as [ft|e] eqn:C; simpl in Hb; [|discriminate].
    injection Hb as <-. right.
    apply collect_text_Ok_iff in C as (os & Hos & ->).
    exists d, (c :: r'), os. split; [exact Hd|]. split; [rewrite Hps; constructor; assumption|].
    split; [discriminate|]. simpl. rewrite <- !app_assoc. reflexivity.
  - destruct (collect_text extract_text ps _); simpl in Hb; [|discriminate].
    injection Hb as <-. left; reflexivity.
Qed.

End PdfText.

(** * The batch *)

Lemma extract_log_no_outcome {Doc Page : Type} po pp (et : Page -> Exc (option text))
    (pc : Doc -> Exc unit) path lg fl :
  extract_invoice_data po pp et pc path = Ok (lg, fl) -> filter outcome_line lg = [].
Proof.
  unfold extract_invoice_data. destruct (with_pdf _ _ _ _); intros H; injection H as <- _;
    reflexivity.
Qed.

Lemma summary_log_no_outcome chat t k url :
  filter outcome_line (fst (get_invoice_summary chat t k url)) = [].
Proof.
  unfold get_invoice_summary.
  destruct (chat _ _ _) as [[|[|[c|] cs]]|[m]]; cbn [fst]; try (destruct (has _ _)); reflexivity.
Qed.

Lemma extract_log_quiet {Doc Page : Type} po pp (et : Page -> Exc (option text))
    (pc : Doc -> Exc unit) path lg fl :
  extract_invoice_data po pp et pc path = Ok (lg, fl) ->
  filter (fun l => negb (verbose_line l)) lg = lg.
Proof.
  unfold extract_invoice_data. destruct (with_pdf _ _ _ _); intros H; injection H as <- _;
    reflexivity.
Qed.

Lemma summary_log_quiet chat t k url :
  filter (fun l => negb (verbose_line l)) (fst (get_invoice_summary chat t k url)) =
  fst (get_invoice_summary chat t k url).
Proof.
  unfold get_invoice_summary.
  destruct (chat _ _ _) as [[|[|[c|] cs]]|[m]]; cbn [fst]; try (destruct (has _ _)); reflexivity.
Qed.

Lemma filter_quiet_cons x l :
  filter (fun l => negb (verbose_line l)) (x :: l) =
  (if verbose_line x then [] else [x]) ++ filter (fun l => negb (verbose_line l)) l.
Proof. simpl. destruct (verbose_line x); reflexivity. Qed.

Section Batch.

Context {Doc Page : Type}.
Variable pdf_open : text -> Exc Doc.
Variable pdf_pages : Doc -> list Page.
Variable extract_text : Page -> Exc (option text).
Variable pdf_close : Doc -> Exc unit.
Variable chat_create : text -> text -> text -> Exc response.
Variable copy2 : text -> text -> Exc unit.

Ltac step_none H :=
  injection H as <-; cbn [out written count];
  eexists _, []; split; [rewrite <- !app_assoc; reflexivity|];
  split; [symmetry; apply app_nil_r|]; split; [simpl; lia|]; split; [|left; reflexivity].

Ltac step_one H :=
  injection H as <-; cbn [out written count];
  eexists _, _; split; [rewrite <- !app_assoc; reflexivity|];
  split; [reflexivity|]; split; [simpl; lia|]; split; [|right; eexists; reflexivity].

Ltac count_outcomes a :=
  rewrite ?filter_app; destruct (verbose a); simpl;
  repeat match goal with
         | H : filter outcome_line ?l = [] |- _ => rewrite ?filter_app, H
         end; reflexivity.

Lemma process_file_step a b f b' :
  process_file pdf_open pdf_pages extract_text pdf_close chat_create copy2 a b f = Ok b' ->
  exists new w, out b' = out b ++ new /\ written b' = written b ++ w /\
    count b' = count b + length w /\
    length w + length (filter outcome_line new) = 1 /\
    (w = [] \/ exists nm, w = [(nm, path f)]).
Proof.
  intros H. unfold process_file in H.
  destruct (extract_invoice_data pdf_open pdf_pages extract_text pdf_close (path f))
    as [[elog fl]|e] eqn:E; cbn [bind] in H; [|discriminate].
  pose proof (extract_log_no_outcome _ _ _ _ _ _ _ E) as HE.
  destruct (f_date fl) as [[|d0 dr]|]; destruct (f_amount fl) as [[|a0 ar]|];
    try (step_none H; count_outcomes a).
  destruct (api_key a) as [[|k0 kr]|]; destruct (f_full_text fl) as [[|t0 tr]|];
    try (destruct (copy2 _ _) as [_|e];
         [step_one H; count_outcomes a | step_none H; count_outcomes a]).
  pose proof (summary_log_no_outcome chat_create
                (extract_items_section (t0 :: tr)) (k0 :: kr) (base_url a)) as HA.
  destruct (get_invoice_summary chat_create _ _ _) as [alog summ]. cbn [fst] in HA.
  destruct summ as [[|s0 sr]|];
    (destruct (copy2 _ _) as [_|e];
     [step_one H; count_outcomes a | step_none H; count_outcomes a]).
Qed.

Lemma process_all_inv a b fs :
  exists b', process_all pdf_open pdf_pages extract_text pdf_close chat_create copy2 a b fs = Ok b' /\
  exists new w, out b' = out b ++ new /\ written b' = written b ++ w /\
    count b' = count b + length w /\
    length w + length (filter outcome_line new) = length fs /\
    sublist (map snd w) (map path fs).
Proof.
  revert b. induction fs as [|f fs IH]; intros b.
  - exists b. split; [reflexivity|]. exists [], [].
    rewrite !app_nil_r. repeat split; try reflexivity; try (simpl; lia). constructor.
  - destruct (process_file_Ok pdf_open pdf_pages extract_text pdf_close chat_create copy2 a b f)
      as (b1 & E1).
    destruct (process_file_step _ _ _ _ E1) as (n1 & w1 & Ho1 & Hw1 & Hc1 & Hl1 & Hf1).
    destruct (IH b1) as (b' & E2 & n2 & w2 & Ho2 & Hw2 & Hc2 & Hl2 & Hs2).
    exists b'. split; [simpl; rewrite E1; exact E2|].
    exists (n1 ++ n2), (w1 ++ w2).
    rewrite Ho2, Ho1, Hw2, Hw1, <- !app_assoc. split; [reflexivity|]. split; [reflexivity|].
    rewrite !filter_app, !length_app. split; [lia|]. split; [simpl; lia|].
    rewrite map_app. simpl. destruct Hf1 as [->|(nm & ->)]; simpl.
    + apply sublist_skip, Hs2.
    + apply sublist_keep, Hs2.
Qed.

Lemma main_loop_inv a fs :
  exists b, main_loop pdf_open pdf_pages extract_text pdf_close chat_create copy2 a fs = Ok b /\
    count b = length (written b) /\
    count b + length (filter outcome_line (out b)) = length fs /\
    sublist (map snd (written b)) (map path fs) /\
    last (out b) (LDone 0) = LDone (count b).
Proof.
  destruct (process_all_inv a (Batch 0 [] []) fs) as (b' & E & n & w & Ho & Hw & Hc & Hl & Hs).
  cbn [out written count] in Ho, Hw, Hc. simpl in Ho, Hw.
  exists (Batch (count b') (written b') (out b' ++ [LDone (count b')])).
  split; [unfold main_loop; rewrite E; reflexivity|]. cbn [count written out].
  split; [rewrite Hc, Hw; reflexivity|].
  split; [rewrite filter_app, Ho; simpl; rewrite app_nil_r; lia|].
  split; [rewrite Hw; exact Hs|]. apply last_last.
Qed.

Ltac quiet_fin :=
  rewrite ?filter_quiet_cons; cbn [verbose_line];
  rewrite ?app_nil_l, ?app_nil_r, <- ?app_assoc; cbn [app filter]; reflexivity.

Lemma process_file_quiet k url b1 b2 f b1' b2' :
  process_file pdf_open pdf_pages extract_text pdf_close chat_create copy2 (Args true k url) b1 f = Ok b1' ->
  process_file pdf_open pdf_pages extract_text pdf_close chat_create copy2 (Args false k url) b2 f = Ok b2' ->
  count b1 = count b2 -> written b1 = written b2 ->
  out b2 = filter (fun l => negb (verbose_line l)) (out b1) ->
  count b1' = count b2' /\ written b1' = written b2' /\
  out b2' = filter (fun l => negb (verbose_line l)) (out b1').
Proof.
  intros H1 H2 Hc Hw Ho. revert H1 H2. unfold process_file. cbn [verbose api_key base_url].
  destruct (extract_invoice_data pdf_open pdf_pages extract_text pdf_close (path f))
    as [[elog fl]|e] eqn:E; cbn [bind]; [|discriminate].
  pose proof (extract_log_quiet _ _ _ _ _ _ _ E) as He.
  destruct (f_date fl) as [[|d0 dr]|]; destruct (f_amount fl) as [[|a0 ar]|];
    try (intros H1 H2; injection H1 as <-; injection H2 as <-; cbn [count written out];
         rewrite ?Hc, ?Hw; (split; [reflexivity|split; [reflexivity|]]);
         rewrite Ho; repeat (rewrite filter_app || rewrite filter_quiet_cons);
         rewrite He; quiet_fin; fail).
  destruct k as [[|k0 kr]|]; destruct (f_full_text fl) as [[|t0 tr]|];
    try (destruct (copy2 _ _); intros H1 H2; injection H1 as <-; injection H2 as <-;
         cbn [count written out]; rewrite ?Hc, ?Hw; (split; [reflexivity|split; [reflexivity|]]);
         rewrite Ho; repeat (rewrite filter_app || rewrite filter_quiet_cons);
         rewrite He; quiet_fin; fail).
  pose proof (summary_log_quiet chat_create (extract_items_section (t0 :: tr)) (k0 :: kr) url)
    as HA.
  destruct (get_invoice_summary chat_create _ _ _) as [alog summ]. cbn [fst] in HA.
  destruct summ as [[|s0 sr]|];
    destruct (copy2 _ _); intros H1 H2; injection H1 as <-; injection H2 as <-;
    cbn [count written out]; rewrite ?Hc, ?Hw; (split; [reflexivity|split; [reflexivity|]]);
    rewrite Ho; repeat (rewrite filter_app || rewrite filter_quiet_cons);
    rewrite He, HA; quiet_fin.
Qed.

Lemma process_all_quiet k url b1 b2 fs b1' b2' :
  process_all pdf_open pdf_pages extract_text pdf_close chat_create copy2 (Args true k url) b1 fs = Ok b1' ->
  process_all pdf_open pdf_pages extract_text pdf_close chat_create copy2 (Args false k url) b2 fs = Ok b2' ->
  count b1 = count b2 -> written b1 = written b2 ->
  out b2 = filter (fun l => negb (verbose_line l)) (out b1) ->
  count b1' = count b2' /\ written b1' = written b2' /\
  out b2' = filter (fun l => negb (verbose_line l)) (out b1').
Proof.
  revert b1 b2. induction fs as [|f fs IH]; intros b1 b2; simpl.
  - intros H1 H2; injection H1 as <-; injection H2 as <-. auto.
  - destruct (process_file _ _ _ _ _ _ (Args true k url) b1 f) as [c1|e] eqn:E1; simpl;
      [|discriminate].
    destruct (process_file _ _ _ _ _ _ (Args false k url) b2 f) as [c2|e] eqn:E2; simpl;
      [|discriminate].
    intros H1 H2 Hc Hw Ho.
    destruct (process_file_quiet _ _ _ _ _ _ _ E1 E2 Hc Hw Ho) as (Hc' & Hw' & Ho').
    exact (IH _ _ H1 H2 Hc' Hw' Ho').
Qed.

(** X8: the loop never raises; its count equals the number of files written, is at most the number of input files, and is what the closing Done line prints. *)
Theorem main_loop_counts_written a fs :
  exists b, main_loop pdf_open pdf_pages extract_text pdf_close chat_create copy2 a fs = Ok b /\
    count b = length (written b) /\ (count b <= length fs)%nat /\
    last (out b) (LDone 0) = LDone (count b).
Proof.
  destruct (main_loop_inv a fs) as (b & E & Hc & Hl & _ & Hd).
  exists b. split; [exact E|]. split; [exact Hc|]. split; [lia|exact Hd].
Qed.

(** X9: every input file is either copied or reported by exactly one copy-failure or failed-extraction line. *)
Theorem main_loop_every_file_accounted a fs :
  exists b, main_loop pdf_open pdf_pages extract_text pdf_close chat_create copy2 a fs = Ok b /\
    count b + length (filter outcome_line (out b)) = length fs.
Proof.
  destruct (main_loop_inv a fs) as (b & E & _ & Hl & _ & _). exists b. split; assumption.
Qed.

(** X10: the sources of the written files are input files, each at most once, in the order of the input. *)
Theorem main_loop_written_sources a fs :
  exists b, main_loop pdf_open pdf_pages extract_text pdf_close chat_create copy2 a fs = Ok b /\
    sublist (map snd (written b)) (map path fs).
Proof.
  destruct (main_loop_inv a fs) as (b & E & _ & _ & Hs & _). exists b. split; assumption.
Qed.

(** X11: the verbose flag only adds printed lines: the runs with and without
    it have the same count and write the same files, and the output without it
    is the output with it less its Processing, Generating, Sending, Summary and
    Created lines. *)
Theorem main_loop_verbose_only_prints k url fs b1 b2 :
  main_loop pdf_open pdf_pages extract_text pdf_close chat_create copy2 (Args true k url) fs = Ok b1 ->
  main_loop pdf_open pdf_pages extract_text pdf_close chat_create copy2 (Args false k url) fs = Ok b2 ->
  count b1 = count b2 /\ written b1 = written b2 /\
  out b2 = filter (fun l => negb (verbose_line l)) (out b1).
Proof.
  unfold main_loop.
  destruct (process_all _ _ _ _ _ _ (Args true k url) (Batch 0 [] []) fs) as [c1|e] eqn:E1;
    simpl; [|discriminate].
  destruct (process_all _ _ _ _ _ _ (Args false k url) (Batch 0 [] []) fs) as [c2|e] eqn:E2;
    simpl; [|discriminate].
  intros H1 H2; injection H1 as <-; injection H2 as <-. cbn [count written out].
  destruct (process_all_quiet _ _ _ _ _ _ _ E1 E2 eq_refl eq_refl eq_refl) as (Hc & Hw & Ho).
  rewrite Hc, Hw, Ho, filter_app. auto.
Qed.

End Batch.

Lemma process_file_no_key {Doc Page : Type} po (pp : Doc -> list Page) et pc chat1 chat2 cp a b f :
  truthy (api_key a) = false ->
  process_file po pp et pc chat1 cp a b f = process_file po pp et pc chat2 cp a b f.
Proof.
  intros Hk. unfold process_file.
  destruct (api_key a) as [[|k0 kr]|]; [reflexivity|discriminate|reflexivity].
Qed.

Lemma process_all_no_key {Doc Page : Type} po (pp : Doc -> list Page) et pc chat1 chat2 cp a b fs :
  truthy (api_key a) = false ->
  process_all po pp et pc chat1 cp a b fs = process_all po pp et pc chat2 cp a b fs.
Proof.
  intros Hk. revert b. induction fs as [|f fs IH]; intros b; simpl; [reflexivity|].
  rewrite (process_file_no_key po pp et pc chat1 chat2 cp a b f Hk).
  destruct (process_file po pp et pc chat2 cp a b f); simpl; [apply IH|reflexivity].
Qed.

(** X12: without a (non-empty) API key the AI is never used: the run does not depend on the chat client. *)
Theorem main_loop_no_key_no_ai {Doc Page : Type} po (pp : Doc -> list Page) et pc
    chat1 chat2 cp a fs :
  truthy (api_key a) = false ->
  main_loop po pp et pc chat1 cp a fs = main_loop po pp et pc chat2 cp a fs.
Proof.
  intros Hk. unfold main_loop.
  rewrite (process_all_no_key po pp et pc chat1 chat2 cp a (Batch 0 [] []) fs Hk).
  reflexivity.
Qed.

(** X13: a file whose date or amount is missing makes no AI request and no copy: its handling does not depend on the chat client or on the copy function. *)
Theorem process_file_skip_no_calls {Doc Page : Type} po (pp : Doc -> list Page) et pc
    chat1 chat2 cp1 cp2 a b f lg fl :
  extract_invoice_data po pp et pc (path f) = Ok (lg, fl) ->
  truthy (f_date fl) && truthy (f_amount fl) = false ->
  process_file po pp et pc chat1 cp1 a b f = process_file po pp et pc chat2 cp2 a b f.
Proof.
  intros E Ht. unfold process_file. rewrite E. cbn [bind].
  destruct (f_date fl) as [[|d0 dr]|]; destruct (f_amount fl) as [[|a0 ar]|];
    try reflexivity; discriminate Ht.
Qed.


(** X6: the seller of the sample page. *)
Lemma extract_seller_shape_witness :
  extract_seller sample_page = Some (u "YY商店") /\
  (u "YY商店" <> [] /\ forallb name_cls (u "YY商店") = true).
Proof.
  split; [vm_compute; reflexivity|].
  apply (extract_seller_shape sample_page). vm_compute; reflexivity.
Defined.

(** X7: the full text of a one-page document. *)
Lemma extracted_full_text_witness :
  extract_from_texts sample_page (sample_page ++ nl) = no_fields \/
  exists (d : unit) fp os, (fun _ : text => Ok tt) (u "in/a.pdf") = Ok d /\
    Forall2 (fun p o => (fun _ : unit => Ok (Some sample_page)) p = Ok o)
      ((fun _ : unit => [tt]) d) (Some fp :: os) /\
    fp <> [] /\ extract_from_texts sample_page (sample_page ++ nl) =
      extract_from_texts fp (fp ++ nl ++ concat (map page_piece os)).
Proof.
  apply (extracted_full_text (fun _ : text => Ok tt) (fun _ : unit => [tt])
           (fun _ : unit => Ok (Some sample_page)) (fun _ : unit => Ok tt) (u "in/a.pdf") []).
  vm_compute; reflexivity.
Defined.

(** X11: one invoice, with and without the verbose flag. *)
Lemma main_loop_verbose_only_prints_witness :
  let run v := main_loop (fun _ : text => Ok tt) (fun _ : unit => [tt])
      (fun _ : unit => Ok (Some sample_page)) (fun _ : unit => Ok tt)
      (fun _ _ _ => Ok NoChoices) (fun _ _ => Ok tt)
      (Args v None (u "https://api.openai.com/v1")) [PdfFile (u "in/a.pdf") (u "a.pdf")] in
  run true = Ok (Batch 1 [(u "2024.03.15-YY商店-99.00.pdf", u "in/a.pdf")]
                   [LProcessing (u "a.pdf"); LCreated (u "2024.03.15-YY商店-99.00.pdf"); LDone 1]) /\
  run false = Ok (Batch 1 [(u "2024.03.15-YY商店-99.00.pdf", u "in/a.pdf")] [LDone 1]) /\
  (1 = 1 /\ [(u "2024.03.15-YY商店-99.00.pdf", u "in/a.pdf")] =
            [(u "2024.03.15-YY商店-99.00.pdf", u "in/a.pdf")] /\
   [LDone 1] = filter (fun l => negb (verbose_line l))
     [LProcessing (u "a.pdf"); LCreated (u "2024.03.15-YY商店-99.00.pdf"); LDone 1]).
Proof.
  split; [vm_compute; reflexivity|]. split; [vm_compute; reflexivity|].
  apply (main_loop_verbose_only_prints (fun _ : text => Ok tt) (fun _ : unit => [tt])
      (fun _ : unit => Ok (Some sample_page)) (fun _ : unit => Ok tt)
      (fun _ _ _ => Ok NoChoices) (fun _ _ => Ok tt) None
      (u "https://api.openai.com/v1") [PdfFile (u "in/a.pdf") (u "a.pdf")]
      (Batch 1 [(u "2024.03.15-YY商店-99.00.pdf", u "in/a.pdf")]
         [LProcessing (u "a.pdf"); LCreated (u "2024.03.15-YY商店-99.00.pdf"); LDone 1])
      (Batch 1 [(u "2024.03.15-YY商店-99.00.pdf", u "in/a.pdf")] [LDone 1]));
    vm_compute; reflexivity.
Defined.

(** X12: no key, so a failing chat client changes nothing. *)
Lemma main_loop_no_key_no_ai_witness :
  truthy (api_key (Args false None (u "https://api.openai.com/v1"))) = false /\
  main_loop (fun _ : text => Ok tt) (fun _ : unit => [tt])
    (fun _ : unit => Ok (Some sample_page)) (fun _ : unit => Ok tt)
    (fun _ _ _ => Ok NoChoices) (fun _ _ => Ok tt)
    (Args false None (u "https://api.openai.com/v1")) [PdfFile (u "in/a.pdf") (u "a.pdf")] =
  main_loop (fun _ : text => Ok tt) (fun _ : unit => [tt])
    (fun _ : unit => Ok (Some sample_page)) (fun _ : unit => Ok tt)
    (fun _ _ _ => Raise (Exn (u "Connection error."))) (fun _ _ => Ok tt)
    (Args false None (u "https://api.openai.com/v1")) [PdfFile (u "in/a.pdf") (u "a.pdf")].
Proof.
  split; [reflexivity|].
  apply (main_loop_no_key_no_ai (fun _ : text => Ok tt) (fun _ : unit => [tt])
    (fun _ : unit => Ok (Some sample_page)) (fun _ : unit => Ok tt)
    (fun _ _ _ => Ok NoChoices) (fun _ _ _ => Raise (Exn (u "Connection error.")))
    (fun _ _ => Ok tt) (Args false None (u "https://api.openai.com/v1"))
    [PdfFile (u "in/a.pdf") (u "a.pdf")]).
  reflexivity.
Defined.

(** X13: a page without a date; the chat client and the copy may fail or not. *)
Lemma process_file_skip_no_calls_witness :
  process_file (fun _ : text => Ok tt) (fun _ : unit => [tt])
    (fun _ : unit => Ok (Some (u "名称：YY商店"))) (fun _ : unit => Ok tt)
    (fun _ _ _ => Ok NoChoices) (fun _ _ => Ok tt)
    (Args false (Some (u "sk-1")) (u "https://api.openai.com/v1")) (Batch 0 [] [])
    (PdfFile (u "in/b.pdf") (u "b.pdf")) =
  process_file (fun _ : text => Ok tt) (fun _ : unit => [tt])
    (fun _ : unit => Ok (Some (u "名称：YY商店"))) (fun _ : unit => Ok tt)
    (fun _ _ _ => Raise (Exn (u "Connection error."))) (fun _ _ => Raise (Exn (u "Permission denied")))
    (Args false (Some (u "sk-1")) (u "https://api.openai.com/v1")) (Batch 0 [] [])
    (PdfFile (u "in/b.pdf") (u "b.pdf")).
Proof.
  apply (process_file_skip_no_calls (fun _ : text => Ok tt) (fun _ : unit => [tt])
    (fun _ : unit => Ok (Some (u "名称：YY商店"))) (fun _ : unit => Ok tt)
    (fun _ _ _ => Ok NoChoices) (fun _ _ _ => Raise (Exn (u "Connection error.")))
    (fun _ _ => Ok tt) (fun _ _ => Raise (Exn (u "Permission denied")))
    (Args false (Some (u "sk-1")) (u "https://api.openai.com/v1")) (Batch 0 [] [])
    (PdfFile (u "in/b.pdf") (u "b.pdf")) []
    (extract_from_texts (u "名称：YY商店") (u "名称：YY商店" ++ nl)));
    vm_compute; reflexivity.
Defined.
